(** * Inbox message processing of takahe: [users/models/inbox_message.py]

    A shallow embedding of the [InboxMessageStates] state graph, of the
    [InboxMessage] model and of the [handle_received] dispatcher, followed by
    the properties of the processing pipeline that the specification states.

    Python values are modelled as JSON trees, dictionaries as [gmap string],
    exceptions by the names of the classes in their MRO, and statements in a
    small monad with three ways to complete: normally, by [return], or by
    raising.  The domain models and libraries the dispatcher calls into
    (Identity, Post, Follow, ..., LDSignature, urllib, the ORM) are outside
    of this file; they appear as the fields of the class [Collaborators]. *)

From stdpp Require Import gmap strings list.
From Stdlib Require Import ZArith Ascii.

Set Warnings "-register-all".
Set Default Proof Using "Type".

(* ===================================================================== *)
(** * Python values *)
(* ===================================================================== *)

(** What [json.loads] produces, which is what a [JSONField] holds. *)
Inductive json : Type :=
| JNull
| JBool (b : bool)
| JInt (z : Z)
| JFloat (mantissa exponent : Z)
| JStr (s : string)
| JArr (l : list json)
| JObj (d : gmap string json).

(** An exception object: the names of the classes of its MRO, most specific
    first, and its [args] tuple. *)
Record exception : Type := Exc { exc_mro : list string; exc_args : list json }.

(** [isinstance(e, cls)], which is also how an [except cls] clause selects. *)
Definition isinstance (e : exception) (cls : string) : bool :=
  bool_decide (cls ∈ exc_mro e).

Definition KeyError (key : string) : exception :=
  Exc ["KeyError"; "LookupError"; "Exception"; "BaseException"] [JStr key].
Definition IndexError (msg : string) : exception :=
  Exc ["IndexError"; "LookupError"; "Exception"; "BaseException"] [JStr msg].
Definition TypeError (msg : string) : exception :=
  Exc ["TypeError"; "Exception"; "BaseException"] [JStr msg].
Definition AttributeError (msg : string) : exception :=
  Exc ["AttributeError"; "Exception"; "BaseException"] [JStr msg].

(** Modelled from the spec: [core.signatures.VerificationError] is not among
    the sources.  The spec calls [VerificationFormatError] a distinct
    sub-kind of it, so an instance of the base class is not an instance of
    the sub-kind. *)
Definition VerificationError (args : list json) : exception :=
  Exc ["VerificationError"; "BaseException"] args.

(** The value of an expression: a value or a raised exception. *)
Inductive result (A : Type) : Type :=
| Ok (a : A)
| Err (e : exception).
Arguments Ok {A} a.
Arguments Err {A} e.

(** [type(v).__name__], for the texts of the error messages. *)
Definition type_name (v : json) : string :=
  match v with
  | JNull => "NoneType" | JBool _ => "bool" | JInt _ => "int"
  | JFloat _ _ => "float" | JStr _ => "str" | JArr _ => "list"
  | JObj _ => "dict"
  end.

(** The texts of the interpreter's messages. *)
Definition quoted (s : string) : string := "'" +:+ s +:+ "'".
Definition no_attribute (v : json) (attr : string) : string :=
  quoted (type_name v) +:+ " object has no attribute " +:+ quoted attr.
Definition not_a_callable (v : json) : string :=
  quoted (type_name v) +:+ " object is not callable".

(** [d[key]] on a dictionary. *)
Definition dict_getitem (d : gmap string json) (key : string) : result json :=
  match d !! key with
  | Some v => Ok v
  | None => Err (KeyError key)
  end.

(** [d.get(key, default)]. *)
Definition dict_get (d : gmap string json) (key : string) (default : json) : json :=
  match d !! key with
  | Some v => v
  | None => default
  end.

(** [v[key]] with a string key, on any value. *)
Definition subscript (v : json) (key : string) : result json :=
  match v with
  | JObj d => dict_getitem d key
  | JStr _ => Err (TypeError "string indices must be integers, not 'str'")
  | JArr _ => Err (TypeError "list indices must be integers or slices, not str")
  | _ => Err (TypeError (quoted (type_name v)
                          +:+ " object is not subscriptable"))
  end.

(** [isinstance(v, dict)]. *)
Definition is_dict (v : json) : bool :=
  match v with JObj _ => true | _ => false end.

Fixpoint is_substring (needle hay : string) : bool :=
  String.prefix needle hay
  || match hay with
     | EmptyString => false
     | String _ rest => is_substring needle rest
     end.

(** [key in v] for a string [key]: key membership on a dictionary, substring
    on a string, element membership on a list, [TypeError] on the rest. *)
Definition contains (key : string) (v : json) : result bool :=
  match v with
  | JObj d => Ok (bool_decide (is_Some (d !! key)))
  | JStr s => Ok (is_substring key s)
  | JArr l => Ok (existsb (fun x => match x with
                                    | JStr s => bool_decide (s = key)
                                    | _ => false
                                    end) l)
  | _ => Err (TypeError ("argument of type " +:+ quoted (type_name v)
                          +:+ " is not iterable"))
  end.

(** [v()]: no JSON value is callable. *)
Definition py_call (v : json) : result json :=
  Err (TypeError (not_a_callable v)).

(** [e.args[0]]. *)
Definition args_0 (e : exception) : result json :=
  match exc_args e with
  | a :: _ => Ok a
  | [] => Err (IndexError "tuple index out of range")
  end.

(* ===================================================================== *)
(** * The state graph: [class InboxMessageStates(StateGraph)] *)
(* ===================================================================== *)

(** A [stator.models.State] with the keyword arguments the graph passes. *)
Record State : Type := mkState {
  state_name : string;
  try_interval : option Z;
  externally_progressed : bool;
  delete_after : option Z
}.

Global Instance State_eq_dec : EqDecision State.
Proof. solve_decision. Defined.

(** Modelled from the spec: [stator.models.State.transitions_to] is not
    among the sources; the spec reads [a.transitions_to(b)] as declaring the
    transition [a → b] of the graph. *)
Definition transitions_to (parent child : State)
    (graph : list (State * State)) : list (State * State) :=
  graph ++ [(parent, child)].

Definition received : State :=
  mkState "received" (Some 300%Z) false (Some (86400 * 3)%Z).
Definition processed : State :=
  mkState "processed" None true (Some 86400%Z).
Definition errored : State :=
  mkState "errored" None true (Some 86400%Z).

(** The class body of [InboxMessageStates]: the two [transitions_to] calls,
    in order. *)
Definition transitions : list (State * State) :=
  transitions_to received errored
    (transitions_to received processed []).


(* ===================================================================== *)
(** * The external collaborators *)
(* ===================================================================== *)

(** The capabilities of the domain models that [handle_received] invokes. *)
Inductive handler : Type :=
| Follow_handle_request_ap
| Follow_handle_accept_ap
| Follow_handle_reject_ap
| Follow_handle_undo_ap
| Block_handle_ap
| Block_handle_undo_ap
| PostInteraction_handle_ap
| PostInteraction_handle_undo_ap
| PostInteraction_handle_add_ap
| PostInteraction_handle_remove_ap
| Post_handle_create_ap
| Post_handle_update_ap
| Post_handle_delete_ap
| Post_handle_fetch_internal
| Identity_handle_update_ap
| Identity_handle_delete_ap
| Report_handle_ap
| TimelineEvent_handle_clear_timeline
| IdentityService_handle_internal_add_follow
| IdentityService_handle_internal_sync_pins.

Global Instance handler_eq_dec : EqDecision handler.
Proof. solve_decision. Defined.

(** What the pipeline reads of a [users.models.Identity]. *)
Record Identity : Type := mkIdentity {
  actor_uri : string;
  public_key : option string
}.

(** Everything [inbox_message.py] imports and calls.  [W] is the state of the
    world these calls act on: the database and the network. *)
Class Collaborators (W : Type) : Type := {
  (** [str.lower] *)
  str_lower : string → string;
  (** [urllib.parse.urldefrag(x).url] *)
  urldefrag_url : json → result string;
  (** [Identity.by_actor_uri(uri, create=True, transient=True)] *)
  Identity_by_actor_uri : string → W → result Identity * W;
  (** [identity.fetch_actor()]; the identity object comes back updated. *)
  Identity_fetch_actor : Identity → W → result Identity * W;
  (** Modelled from the spec: [core.signatures.LDSignature.verify_signature]
      is not among the sources.  The spec makes it a stateless pure function
      of the document and the key that succeeds or fails with a
      [VerificationError], and that leaves the document as it was. *)
  LDSignature_verify_signature : gmap string json → string → option exception;
  (** [Post.Types.names] *)
  Post_Types_names : list string;
  (** [Identity.objects.filter(actor_uri=x).exists()] *)
  Identity_objects_exists : json → W → result bool;
  (** [Post.objects.filter(object_uri=x).exists()] *)
  Post_objects_exists : json → W → result bool;
  (** A handler capability applied to its argument: it acts on the world and
      returns, or raises. *)
  run_handler : handler → json → W → option exception * W
}.

(* ===================================================================== *)
(** * Statements *)
(* ===================================================================== *)

(** How a statement completes inside a function whose [return] carries an
    [R]. *)
Inductive completion (R A : Type) : Type :=
| Normal (a : A)
| Return (r : R)
| Raise (e : exception).
Arguments Normal {R A} a.
Arguments Return {R A} r.
Arguments Raise {R A} e.

(** An argument of a logging call. *)
Inductive logarg : Type :=
| LogValue (v : json)
| LogExc (e : exception).

Record log_record : Type := mkLog {
  log_level : string;
  log_format : string;
  log_args : list logarg
}.

(** Modelled from the spec: the fields that [StatorModel] adds to a row are
    not among the sources; they are the ones of the spec's data model.
    [message] and [state] are the fields [class InboxMessage] declares. *)
Record InboxMessage : Type := mkInboxMessage {
  id : Z;
  message : gmap string json;
  state : State;
  state_changed_at : Z;
  last_attempt_at : option Z;
  locked_until : option Z
}.

Definition set_message (m : gmap string json) (self : InboxMessage)
    : InboxMessage :=
  mkInboxMessage (id self) m (state self) (state_changed_at self)
                 (last_attempt_at self) (locked_until self).

Section Pipeline.

Context {W : Type} `{!Collaborators W}.

(** The machine a worker runs [handle_received] on: the instance it holds,
    the world, the handler capabilities invoked so far, and the log. *)
Record machine : Type := mkMachine {
  instance : InboxMessage;
  world : W;
  calls : list (handler * json);
  log : list log_record
}.

Definition M (R A : Type) : Type := machine → completion R A * machine.

(** A Python function: called on a machine, it returns or raises. *)
Definition fn (A : Type) : Type := machine → result A * machine.

Definition ret {R A} (a : A) : M R A := λ st, (Normal a, st).
Definition return_ {R A} (r : R) : M R A := λ st, (Return r, st).
Definition raise {R A} (e : exception) : M R A := λ st, (Raise e, st).

Definition bind {R A B} (k : A → M R B) (m : M R A) : M R B :=
  λ st, match m st with
        | (Normal a, st') => k a st'
        | (Return r, st') => (Return r, st')
        | (Raise e, st') => (Raise e, st')
        end.

(** Sequencing is written [x ← m; k] and [m;; k]. *)
Global Instance M_bind {R} : MBind (M R) := @bind R.

(** The value of an expression, as a statement. *)
Definition lift {R A} (r : result A) : M R A :=
  match r with
  | Ok a => ret a
  | Err e => raise e
  end.

(** [def f(...): body].  Falling off the end returns [none]. *)
Definition def {R} (none : R) (body : M R unit) : fn R :=
  λ st, match body st with
        | (Normal _, st') => (Ok none, st')
        | (Return r, st') => (Ok r, st')
        | (Raise e, st') => (Err e, st')
        end.

(** A call [f(...)] inside another function. *)
Definition call {R A} (f : fn A) : M R A :=
  λ st, match f st with
        | (Ok a, st') => (Normal a, st')
        | (Err e, st') => (Raise e, st')
        end.

(** The first [except] clause one of whose classes the exception is an
    instance of. *)
Fixpoint select_clause {B} (e : exception)
    (clauses : list (list string * B)) : option B :=
  match clauses with
  | [] => None
  | (classes, h) :: rest =>
      if existsb (isinstance e) classes then Some h
      else select_clause e rest
  end.

(** [try: body except classes as e: handler ...]. *)
Definition try_except {R A} (body : M R A)
    (clauses : list (list string * (exception → M R A))) : M R A :=
  λ st, match body st with
        | (Raise e, st') =>
            match select_clause e clauses with
            | Some h => h e st'
            | None => (Raise e, st')
            end
        | other => other
        end.

(** [match subject: case pat: body ... case unknown: otherwise]. *)
Fixpoint py_match {V} `{!EqDecision V} {B} (subject : V)
    (cases : list (V * B)) (otherwise : V → B) : B :=
  match cases with
  | [] => otherwise subject
  | (pat, body) :: rest =>
      if decide (subject = pat) then body
      else py_match subject rest otherwise
  end.

Definition get_message {R} : M R (gmap string json) :=
  λ st, (Normal (message (instance st)), st).

Definition get_world {R} : M R W :=
  λ st, (Normal (world st), st).

(** [document.pop(key)] on the message of the instance. *)
Definition message_pop {R} (key : string) : M R json :=
  λ st, match message (instance st) !! key with
        | Some v =>
            (Normal v,
             mkMachine
               (set_message
                  (delete key (message (instance st)))
                  (instance st))
               (world st) (calls st) (log st))
        | None => (Raise (KeyError key), st)
        end.

(** A call that acts on the world only. *)
Definition on_world {R A} (f : W → result A * W) : M R A :=
  λ st, match f (world st) with
        | (Ok a, w) =>
            (Normal a, mkMachine (instance st) w (calls st) (log st))
        | (Err e, w) =>
            (Raise e, mkMachine (instance st) w (calls st) (log st))
        end.

(** The machine after [h] was invoked on [arg] and left the world [w]. *)
Definition record_call (h : handler) (arg : json) (w : W) (st : machine)
    : machine :=
  mkMachine (instance st) w (calls st ++ [(h, arg)]) (log st).

(** The invocation of a handler capability; it is recorded in [calls]. *)
Definition invoke {R} (h : handler) (arg : json) : M R unit :=
  λ st, match run_handler h arg (world st) with
        | (None, w) => (Normal tt, record_call h arg w st)
        | (Some e, w) => (Raise e, record_call h arg w st)
        end.

(** [logger.<level>(format, *args)]. *)
Definition logger {R} (level format : string) (args : list logarg)
    : M R unit :=
  λ st, (Normal tt,
         mkMachine (instance st) (world st) (calls st)
                   (log st ++ [mkLog level format args])).



(** A property or an expression read off the instance. *)
Definition property {R A} (p : InboxMessage → result A) : M R A :=
  λ st, lift (p (instance st)) st.

(* =================================================================== *)
(** ** [class InboxMessage]: properties and methods *)
(* =================================================================== *)

Global Instance result_bind : MBind result :=
  λ A B k r, match r with Ok a => k a | Err e => Err e end.

(** [v.lower()]: only [str] has the method. *)
Definition method_lower (v : json) : result string :=
  match v with
  | JStr s => Ok (str_lower s)
  | _ => Err (AttributeError (no_attribute v "lower"))
  end.

(** [self.message[key]] *)
Definition message_getitem (key : string) (self : InboxMessage)
    : result json :=
  dict_getitem (message self) key.

Definition message_type (self : InboxMessage) : result string :=
  v ← message_getitem "type" self;
  method_lower v.

Definition message_object_type (self : InboxMessage)
    : result (option string) :=
  obj ← message_getitem "object" self;
  if is_dict obj then
    obj ← message_getitem "object" self;
    ty ← subscript obj "type";
    s ← method_lower ty;
    Ok (Some s)
  else Ok None.

Definition message_actor (self : InboxMessage) : result json :=
  Ok (dict_get (message self) "actor" JNull).

Definition message_object_has_content (self : InboxMessage) : result bool :=
  let object := dict_get (message self) "object" (JObj ∅) in
  b ← contains "content" object;
  if b : bool then Ok true else contains "contentMap" object.

(** [f"{x}"] of an optional string. *)
Definition format_optional (x : option string) : string :=
  match x with
  | Some s => s
  | None => "None"
  end.

Definition message_type_full (self : InboxMessage) : result string :=
  if is_dict (dict_get (message self) "object" JNull) then
    ty ← message_type self;
    ot ← message_object_type self;
    Ok (ty +:+ "." +:+ format_optional ot)
  else
    ty ← message_type self;
    Ok ty.

Definition verify_ld_signature : fn (option Identity) :=
  def None (
    (* [document = self.message] is an alias of the message of the
       instance: every use of [document] below reads the instance. *)
    document ← get_message;
    (if bool_decide (is_Some (document !! "signature"))
     then ret tt else return_ None);;
    try_except (
      signature ← property (message_getitem "signature");
      c ← lift (subscript signature "creator");
      creator ← lift (urldefrag_url c);
      creator_identity ← on_world (Identity_by_actor_uri creator);
      creator_identity ←
        (match public_key creator_identity with
         | None => on_world (Identity_fetch_actor creator_identity)
         | Some _ => ret creator_identity
         end);
      key ←
        (match public_key creator_identity with
         | None =>
             raise (VerificationError
               [JStr "Inbox: Could not fetch actor to verify message signature: %s";
                JStr creator])
         | Some key => ret key
         end);
      document ← get_message;
      (match LDSignature_verify_signature document key with
       | Some e => raise e
       | None => ret tt
       end);;
      ty ← property (message_getitem "type");
      logger "debug" "Inbox: %s from %s has good LD signature"
             [LogValue ty; LogValue (JStr creator)];;
      return_ (Some creator_identity))
    [ (["VerificationError"], λ e,
        (* An invalid LD Signature is stripped out *)
        message_pop "signature";;
        raise e) ]).

(** [instance.message], as the argument of a handler. *)
Definition the_message {R} : M R json :=
  m ← get_message; ret (JObj m).

(** [unknown in Post.Types.names] *)
Definition in_Post_Types_names (unknown : option string) : bool :=
  match unknown with
  | Some name => bool_decide (name ∈ Post_Types_names)
  | None => false
  end.

(* =================================================================== *)
(** ** [InboxMessageStates.handle_received] *)
(* =================================================================== *)

(** Lines 30-42: the LD signature is verified out-of-band. *)
Definition signature_prepass : M (option State) unit :=
  try_except (
    call verify_ld_signature;;
    ret tt)
  [ (["VerificationFormatError"], λ e,
      a ← lift (args_0 e);
      logger "warning" "Message rejected due to bad LD signature format: %s"
             [LogValue a];;
      return_ (Some errored));
    (["VerificationError"], λ e,
      actor ← property message_actor;
      who ← lift (py_call actor);
      logger "info" "Message detected with invalid LD signature from %s %s"
             [LogValue who; LogExc e]) ].

Definition on_message (h : handler) : M (option State) unit :=
  m ← the_message; invoke h m.

Definition on_object (h : handler) : M (option State) unit :=
  obj ← property (message_getitem "object"); invoke h obj.

Definition case_create : M (option State) unit :=
  ot ← property message_object_type;
  py_match ot
    [ (Some "note",
        has_content ← property message_object_has_content;
        if has_content : bool
        then on_message Post_handle_create_ap
        else
          (* Notes without content are Interaction candidates *)
          on_message PostInteraction_handle_ap);
      (Some "question", on_message Post_handle_create_ap) ]
    (λ unknown,
      if in_Post_Types_names unknown
      then on_message Post_handle_create_ap
      else ret tt).

Definition case_update : M (option State) unit :=
  ot ← property message_object_type;
  py_match ot
    [ (Some "note", on_message Post_handle_update_ap);
      (Some "person", on_message Identity_handle_update_ap);
      (Some "service", on_message Identity_handle_update_ap);
      (Some "group", on_message Identity_handle_update_ap);
      (Some "organization", on_message Identity_handle_update_ap);
      (Some "application", on_message Identity_handle_update_ap);
      (Some "question", on_message Post_handle_update_ap) ]
    (λ unknown,
      if in_Post_Types_names unknown
      then on_message Post_handle_update_ap
      else ret tt).

Definition case_accept : M (option State) unit :=
  ot ← property message_object_type;
  py_match ot
    [ (Some "follow", on_message Follow_handle_accept_ap);
      (* It's a string object, but these will only be for Follows *)
      (None, on_message Follow_handle_accept_ap) ]
    (λ unknown, return_ (Some errored)).

Definition case_reject : M (option State) unit :=
  ot ← property message_object_type;
  py_match ot
    [ (Some "follow", on_message Follow_handle_reject_ap);
      (None, on_message Follow_handle_reject_ap) ]
    (λ unknown, return_ (Some errored)).

Definition case_undo : M (option State) unit :=
  ot ← property message_object_type;
  py_match ot
    [ (Some "follow", on_message Follow_handle_undo_ap);
      (Some "block", on_message Block_handle_undo_ap);
      (Some "like", on_message PostInteraction_handle_undo_ap);
      (Some "announce", on_message PostInteraction_handle_undo_ap);
      (* We're ignoring emoji reactions for now *)
      (Some "http://litepub.social/ns#emojireact", ret tt) ]
    (λ unknown, return_ (Some errored)).

Definition case_delete : M (option State) unit :=
  (* If there is no object type, we need to see if it's a profile or a
     post *)
  obj ← property (message_getitem "object");
  if negb (is_dict obj) then
    obj ← property (message_getitem "object");
    w ← get_world;
    is_identity ← lift (Identity_objects_exists obj w);
    if is_identity : bool then on_message Identity_handle_delete_ap
    else
      obj ← property (message_getitem "object");
      w ← get_world;
      is_post ← lift (Post_objects_exists obj w);
      if is_post : bool then on_message Post_handle_delete_ap
      else
        (* It is presumably already deleted *)
        ret tt
  else
    ot ← property message_object_type;
    py_match ot
      [ (Some "tombstone", on_message Post_handle_delete_ap);
        (Some "note", on_message Post_handle_delete_ap) ]
      (λ unknown, return_ (Some errored)).

Definition case_internal : M (option State) unit :=
  ot ← property message_object_type;
  py_match ot
    [ (Some "fetchpost", on_object Post_handle_fetch_internal);
      (Some "cleartimeline", on_object TimelineEvent_handle_clear_timeline);
      (Some "addfollow",
        on_object IdentityService_handle_internal_add_follow);
      (Some "syncpins",
        on_object IdentityService_handle_internal_sync_pins) ]
    (λ unknown, return_ (Some errored)).

(** Lines 45-178: the body of the second [try]. *)
Definition dispatch_body : M (option State) unit :=
  ty ← property message_type;
  py_match ty
    [ ("follow", on_message Follow_handle_request_ap);
      ("block", on_message Block_handle_ap);
      ("announce",
        (* Ignore Lemmy-specific likes and dislikes for perf reasons *)
        ot ← property message_object_type;
        if bool_decide (ot ∈ [Some "like"; Some "dislike"])
        then return_ (Some processed)
        else on_message PostInteraction_handle_ap);
      ("like", on_message PostInteraction_handle_ap);
      ("create", case_create);
      ("update", case_update);
      ("accept", case_accept);
      ("reject", case_reject);
      ("undo", case_undo);
      ("delete", case_delete);
      ("add", on_message PostInteraction_handle_add_ap);
      ("remove", on_message PostInteraction_handle_remove_ap);
      (* We're ignoring moves for now *)
      ("move", ret tt);
      (* We're ignoring emoji reactions for now *)
      ("http://litepub.social/ns#emojireact", ret tt);
      (* Received reports *)
      ("flag", on_message Report_handle_ap);
      ("__internal__", case_internal) ]
    (λ unknown, return_ (Some errored));;
  return_ (Some processed).

(** Lines 44-180. *)
Definition dispatch : M (option State) unit :=
  try_except dispatch_body
    [ (["ActivityPubError"; "JsonLdError"], λ _, return_ (Some errored)) ].

Definition handle_received : fn (option State) :=
  def None (
    signature_prepass;;
    dispatch).

(* =================================================================== *)
(** ** Vocabulary of the properties *)
(* =================================================================== *)

(** The states [handle_received] may hand to the queue engine. *)
Definition next_state (r : option State) : Prop :=
  r = Some processed ∨ r = Some errored.

(** [e] is one of the exceptions the second [try] converts. *)
Definition converted (e : exception) : bool :=
  isinstance e "ActivityPubError" || isinstance e "JsonLdError".

(** The result of [handle_received] on a branch that invokes [h] on
    [arg]. *)
Definition invocation (h : handler) (arg : json) (st : machine)
    : result (option State) * machine :=
  match run_handler h arg (world st) with
  | (None, w) => (Ok (Some processed), record_call h arg w st)
  | (Some e, w) =>
      (if converted e then Ok (Some errored) else Err e,
       record_call h arg w st)
  end.

(** The machine after the warning of line 33. *)
Definition warned (a : json) (st : machine) : machine :=
  mkMachine (instance st) (world st) (calls st)
    (log st ++ [mkLog "warning"
                  "Message rejected due to bad LD signature format: %s"
                  [LogValue a]]).

(** What line 40 raises: [message_actor] is a property, and its value is
    called. *)
Definition not_callable (st : machine) : exception :=
  TypeError (not_a_callable (dict_get (message (instance st)) "actor" JNull)).

(** Two rows that differ in their message at most. *)
Definition same_row (a b : InboxMessage) : Prop :=
  id a = id b ∧ state a = state b
  ∧ state_changed_at a = state_changed_at b
  ∧ last_attempt_at a = last_attempt_at b
  ∧ locked_until a = locked_until b.

(** A statement without effect: it only computes a value or raises. *)
Definition pure {R A} (m : M R A) : Prop :=
  ∀ st, ∃ r : result A,
    m st = (match r with Ok a => Normal a | Err e => Raise e end, st).

(** A statement of the dispatcher is tame when it either has no effect at
    all, and then returns nothing but a next state, or is one invocation
    of a handler capability and nothing else. *)
Definition tame (m : M (option State) unit) : Prop :=
  ∀ st,
    (∃ c, m st = (c, st) ∧ ∀ r, c = Return r → next_state r)
    ∨ (∃ h arg, m st = invoke h arg st).

(** A statement that leaves the instance and the record of calls alone. *)
Definition keeps_row {R A} (m : M R A) : Prop :=
  ∀ st, instance (m st).2 = instance st ∧ calls (m st).2 = calls st.

(** The top-level types [handle_received] has a case for. *)
Definition known_types : list string :=
  ["follow"; "block"; "announce"; "like"; "create"; "update"; "accept";
   "reject"; "undo"; "delete"; "add"; "remove"; "move";
   "http://litepub.social/ns#emojireact"; "flag"; "__internal__"].

(** The object types the branch of a top-level type has a case for, where
    it has a [match] on them; [None] is an object that is not a
    mapping. *)
Definition known_object_types (ty : string) : list (option string) :=
  if decide (ty = "create") then [Some "note"; Some "question"]
  else if decide (ty = "update") then
    [Some "note"; Some "person"; Some "service"; Some "group";
     Some "organization"; Some "application"; Some "question"]
  else if decide (ty = "accept") then [Some "follow"; None]
  else if decide (ty = "reject") then [Some "follow"; None]
  else if decide (ty = "undo") then
    [Some "follow"; Some "block"; Some "like"; Some "announce";
     Some "http://litepub.social/ns#emojireact"]
  else if decide (ty = "delete") then
    [None; Some "tombstone"; Some "note"]
  else if decide (ty = "__internal__") then
    [Some "fetchpost"; Some "cleartimeline"; Some "addfollow";
     Some "syncpins"]
  else [].

(** The top-level types whose branch is one handler on the whole message,
    whatever the object. *)
Definition plain_routes : list (string * handler) :=
  [ ("follow", Follow_handle_request_ap);
    ("block", Block_handle_ap);
    ("like", PostInteraction_handle_ap);
    ("add", PostInteraction_handle_add_ap);
    ("remove", PostInteraction_handle_remove_ap);
    ("flag", Report_handle_ap) ].

(** The cases on the object type that are one handler on the whole
    message. *)
Definition object_routes : list (string * option string * handler) :=
  [ ("create", Some "question", Post_handle_create_ap);
    ("update", Some "note", Post_handle_update_ap);
    ("update", Some "person", Identity_handle_update_ap);
    ("update", Some "service", Identity_handle_update_ap);
    ("update", Some "group", Identity_handle_update_ap);
    ("update", Some "organization", Identity_handle_update_ap);
    ("update", Some "application", Identity_handle_update_ap);
    ("update", Some "question", Post_handle_update_ap);
    ("accept", Some "follow", Follow_handle_accept_ap);
    ("accept", None, Follow_handle_accept_ap);
    ("reject", Some "follow", Follow_handle_reject_ap);
    ("reject", None, Follow_handle_reject_ap);
    ("undo", Some "follow", Follow_handle_undo_ap);
    ("undo", Some "block", Block_handle_undo_ap);
    ("undo", Some "like", PostInteraction_handle_undo_ap);
    ("undo", Some "announce", PostInteraction_handle_undo_ap);
    ("delete", Some "tombstone", Post_handle_delete_ap);
    ("delete", Some "note", Post_handle_delete_ap) ].

(** The cases of [__internal__], each one handler on the object. *)
Definition internal_routes : list (string * handler) :=
  [ ("fetchpost", Post_handle_fetch_internal);
    ("cleartimeline", TimelineEvent_handle_clear_timeline);
    ("addfollow", IdentityService_handle_internal_add_follow);
    ("syncpins", IdentityService_handle_internal_sync_pins) ].

(** The top-level types whose branch reads the type of the object. *)
Definition object_typed : list string :=
  ["announce"; "create"; "update"; "accept"; "reject"; "undo"; "delete";
   "__internal__"].


(* =================================================================== *)
(** ** Lemmas on the statements *)
(* =================================================================== *)

(** ** How statements run *)

Lemma bind_eq {R A B} (m : M R A) (k : A → M R B) st :
  (m ≫= k) st = match m st with
                | (Normal a, st') => k a st'
                | (Return r, st') => (Return r, st')
                | (Raise e, st') => (Raise e, st')
                end.
Proof. reflexivity. Qed.

Lemma bind_property {R A B} (p : InboxMessage → result A) (k : A → M R B) st :
  (property p ≫= k) st = match p (instance st) with
                         | Ok a => k a st
                         | Err e => (Raise e, st)
                         end.
Proof. rewrite bind_eq. unfold property. by destruct (p (instance st)). Qed.

Lemma bind_lift {R A B} (r : result A) (k : A → M R B) st :
  (lift r ≫= k) st = match r with
                     | Ok a => k a st
                     | Err e => (Raise e, st)
                     end.
Proof. rewrite bind_eq. by destruct r. Qed.

Lemma bind_get_world {R B} (k : W → M R B) st :
  (get_world ≫= k) st = k (world st) st.
Proof. done. Qed.

Lemma bind_ret {R A B} (a : A) (k : A → M R B) st :
  (ret a ≫= k) st = k a st.
Proof. done. Qed.

Lemma bind_get_message {R B} (k : gmap string json → M R B) st :
  (get_message ≫= k) st = k (message (instance st)) st.
Proof. done. Qed.

Lemma bind_raise {R A B} e (k : A → M R B) st :
  (raise e ≫= k) st = (Raise e, st).
Proof. done. Qed.

Lemma bind_on_world {R A B} (f : W → result A * W) (k : A → M R B) st :
  (on_world f ≫= k) st
  = match f (world st) with
    | (Ok a, w) => k a (mkMachine (instance st) w (calls st) (log st))
    | (Err e, w) => (Raise e, mkMachine (instance st) w (calls st) (log st))
    end.
Proof.
  rewrite bind_eq. unfold on_world. by destruct (f (world st)) as [[a|e] w].
Qed.

Lemma bind_logger {R B} level format args (k : unit → M R B) st :
  (logger level format args ≫= k) st
  = k tt (mkMachine (instance st) (world st) (calls st)
                    (log st ++ [mkLog level format args])).
Proof. done. Qed.

Lemma pure_ret {R A} (a : A) : pure (R:=R) (ret a).
Proof. intros st. by exists (Ok a). Qed.

Lemma pure_lift {R A} (r : result A) : pure (R:=R) (lift r).
Proof. intros st. exists r. by destruct r. Qed.

Lemma pure_property {R A} (p : InboxMessage → result A) :
  pure (R:=R) (property p).
Proof. intros st. exists (p (instance st)). unfold property. by destruct (p _). Qed.

Lemma pure_get_world {R} : pure (R:=R) get_world.
Proof. intros st. by exists (Ok (world st)). Qed.

Lemma pure_get_message {R} : pure (R:=R) get_message.
Proof. intros st. by exists (Ok (message (instance st))). Qed.

Lemma pure_bind {R A B} (m : M R A) (k : A → M R B) :
  pure m → (∀ a, pure (k a)) → pure (m ≫= k).
Proof.
  intros Hm Hk st. rewrite bind_eq.
  destruct (Hm st) as [[a|e] ->]; [apply Hk | by exists (Err e)].
Qed.

Lemma tame_ret : tame (ret tt).
Proof. intros st. left. by exists (Normal tt). Qed.

Lemma tame_return r : next_state r → tame (return_ r).
Proof. intros Hr st. left. exists (Return r). split; [done|]. by intros ? [= <-]. Qed.

Lemma tame_invoke h arg : tame (invoke h arg).
Proof. intros st. right. by exists h, arg. Qed.

Lemma tame_bind {A} (m : M (option State) A) k :
  pure m → (∀ a, tame (k a)) → tame (m ≫= k).
Proof.
  intros Hm Hk st. rewrite bind_eq.
  destruct (Hm st) as [[a|e] ->]; [apply Hk|].
  left. by exists (Raise e).
Qed.

Lemma tame_if (b : bool) (m1 m2 : M (option State) unit) :
  tame m1 → tame m2 → tame (if b then m1 else m2).
Proof. by destruct b. Qed.

Lemma tame_py_match {V} `{!EqDecision V} (subject : V) cases otherwise :
  Forall (λ c, tame c.2) cases → (∀ v, tame (otherwise v)) →
  tame (py_match subject cases otherwise).
Proof.
  intros Hcases Ho. induction Hcases as [|[pat body] rest Hb _ IH]; simpl.
  - apply Ho.
  - by case_decide.
Qed.

Lemma tame_on_message h : tame (on_message h).
Proof.
  apply tame_bind; [|intros; apply tame_invoke].
  apply pure_bind; [apply pure_get_message | intros; apply pure_ret].
Qed.

Lemma tame_on_object h : tame (on_object h).
Proof. apply tame_bind; [apply pure_property | intros; apply tame_invoke]. Qed.

Lemma next_state_processed : next_state (Some processed).
Proof. by left. Qed.
Lemma next_state_errored : next_state (Some errored).
Proof. by right. Qed.

Create HintDb tame discriminated.
Hint Resolve tame_ret tame_return tame_invoke tame_on_message
  tame_on_object next_state_processed next_state_errored
  pure_ret pure_lift pure_property pure_get_world pure_get_message : tame.

Ltac tame :=
  repeat first
    [ progress eauto with tame
    | apply tame_bind; [eauto with tame | intros ?]
    | apply tame_py_match; [repeat apply Forall_cons_2; try apply Forall_nil_2; simpl | intros ?]
    | apply tame_if ].

Lemma tame_case_create : tame case_create.
Proof. unfold case_create. tame. Qed.
Lemma tame_case_update : tame case_update.
Proof. unfold case_update. tame. Qed.
Lemma tame_case_accept : tame case_accept.
Proof. unfold case_accept. tame. Qed.
Lemma tame_case_reject : tame case_reject.
Proof. unfold case_reject. tame. Qed.
Lemma tame_case_undo : tame case_undo.
Proof. unfold case_undo. tame. Qed.
Lemma tame_case_delete : tame case_delete.
Proof. unfold case_delete. tame. Qed.
Lemma tame_case_internal : tame case_internal.
Proof. unfold case_internal. tame. Qed.

(** ** The shape of a dispatch *)

Lemma dispatch_body_shape st :
  (∃ c, dispatch_body st = (c, st)
        ∧ match c with
          | Normal _ => False
          | Return r => next_state r
          | Raise _ => True
          end)
  ∨ (∃ h arg,
       dispatch_body st =
         match run_handler h arg (world st) with
         | (None, w) => (Return (Some processed), record_call h arg w st)
         | (Some e, w) => (Raise e, record_call h arg w st)
         end).
Proof.
  unfold dispatch_body. rewrite bind_property.
  destruct (message_type (instance st)) as [ty|e]; [|left; by exists (Raise e)].
  rewrite bind_eq.
  match goal with |- context [py_match ty ?cases ?o st] =>
    assert (tame (py_match ty cases o)) as Hm end.
  { tame; eauto using tame_case_create, tame_case_update, tame_case_accept,
      tame_case_reject, tame_case_undo, tame_case_delete, tame_case_internal. }
  destruct (Hm st) as [(c & -> & Hc)|(h & arg & ->)].
  - left. destruct c as [[]|r|e].
    + exists (Return (Some processed)). split; [done|]. by left.
    + exists (Return r). eauto.
    + by exists (Raise e).
  - right. exists h, arg. unfold invoke.
    by destruct (run_handler h arg (world st)) as [[e|] w].
Qed.

Lemma select_converted {B} e (handle : B) :
  select_clause e [(["ActivityPubError"; "JsonLdError"], handle)]
  = if converted e then Some handle else None.
Proof. unfold converted. simpl. by rewrite orb_false_r. Qed.

Lemma dispatch_shape st :
  (∃ c, dispatch st = (c, st)
        ∧ match c with
          | Normal _ => False
          | Return r => next_state r
          | Raise e => converted e = false
          end)
  ∨ (∃ h arg,
       dispatch st =
         match run_handler h arg (world st) with
         | (None, w) => (Return (Some processed), record_call h arg w st)
         | (Some e, w) =>
             (if converted e then Return (Some errored) else Raise e,
              record_call h arg w st)
         end).
Proof.
  unfold dispatch, try_except.
  destruct (dispatch_body_shape st) as [(c & -> & Hc)|(h & arg & ->)].
  - left. destruct c as [[]|r|e]; [done|by exists (Return r)|].
    rewrite select_converted. destruct (converted e) eqn:He.
    + exists (Return (Some errored)). split; [done|by right].
    + by exists (Raise e).
  - right. exists h, arg.
    destruct (run_handler h arg (world st)) as [[e|] w]; [|done].
    rewrite select_converted. by destruct (converted e).
Qed.

(** ** The signature pre-pass *)

Lemma keeps_row_pure {R A} (m : M R A) : pure m → keeps_row m.
Proof. intros Hm st. by destruct (Hm st) as [r ->]. Qed.

Lemma keeps_row_return {R A} (r : R) : keeps_row (A:=A) (return_ r).
Proof. done. Qed.

Lemma keeps_row_raise {R A} e : keeps_row (R:=R) (A:=A) (raise e).
Proof. done. Qed.

Lemma keeps_row_on_world {R A} (f : W → result A * W) :
  keeps_row (R:=R) (on_world f).
Proof. intros st. unfold on_world. by destruct (f (world st)) as [[a|e] w]. Qed.

Lemma keeps_row_logger {R} level format args :
  keeps_row (R:=R) (logger level format args).
Proof. done. Qed.

Lemma keeps_row_bind {R A B} (m : M R A) (k : A → M R B) :
  keeps_row m → (∀ a, keeps_row (k a)) → keeps_row (m ≫= k).
Proof.
  intros Hm Hk st. rewrite bind_eq. specialize (Hm st).
  destruct (m st) as [[a|r|e] st1]; simpl in *; [|done..].
  destruct (Hk a st1) as [-> ->]. done.
Qed.

Hint Resolve keeps_row_return keeps_row_raise keeps_row_on_world
  keeps_row_logger : tame.

Ltac keeps_row :=
  repeat first
    [ apply keeps_row_bind; [|intros ?]
    | apply keeps_row_pure; solve [eauto with tame]
    | solve [eauto with tame]
    | case_match ].

Lemma select_VerificationError {B} e (handle : B) :
  select_clause e [(["VerificationError"], handle)]
  = if isinstance e "VerificationError" then Some handle else None.
Proof. simpl. by rewrite orb_false_r. Qed.

(** What [verify_ld_signature] does to the machine: it invokes no handler;
    when it returns the instance is as it was; when it raises a
    [VerificationError] the message had a signature and has lost it, and
    nothing else; when it raises anything else the instance is as it
    was. *)
Lemma verify_ld_signature_frame st :
  calls (verify_ld_signature st).2 = calls st
  ∧ match (verify_ld_signature st).1 with
    | Ok _ => instance (verify_ld_signature st).2 = instance st
    | Err e =>
        if isinstance e "VerificationError"
        then is_Some (message (instance st) !! "signature")
             ∧ instance (verify_ld_signature st).2
               = set_message (delete "signature" (message (instance st)))
                             (instance st)
        else instance (verify_ld_signature st).2 = instance st
    end.
Proof.
  unfold verify_ld_signature, def. rewrite bind_eq. simpl. rewrite bind_eq.
  case_bool_decide as Hsig; simpl; [|done].
  unfold try_except.
  match goal with |- context [match ?b st with _ => _ end] =>
    assert (keeps_row b) as Hb; [keeps_row|];
    destruct (Hb st) as [Hi Hc]; destruct (b st) as [[[]|r|e] st1]
  end; cbn [fst snd] in *; [done..|].
  rewrite select_VerificationError.
  destruct (isinstance e "VerificationError") eqn:He; cbn [fst snd];
    [|by rewrite He].
  rewrite bind_eq. unfold message_pop. rewrite Hi.
  destruct Hsig as [v Hv]. rewrite Hv. cbn. rewrite He. eauto.
Qed.

Lemma signature_prepass_eq st :
  signature_prepass st =
    match verify_ld_signature st with
    | (Ok _, st1) => (Normal tt, st1)
    | (Err e, st1) =>
        if isinstance e "VerificationFormatError" then
          match args_0 e with
          | Ok a => (Return (Some errored), warned a st1)
          | Err e' => (Raise e', st1)
          end
        else if isinstance e "VerificationError" then
          (Raise (not_callable st1), st1)
        else (Raise e, st1)
    end.
Proof.
  unfold signature_prepass, try_except. rewrite bind_eq. unfold call.
  destruct (verify_ld_signature st) as [[x|e] st1]; [done|].
  cbn [select_clause existsb]. rewrite !orb_false_r.
  destruct (isinstance e "VerificationFormatError").
  - rewrite bind_eq. by destruct (args_0 e).
  - by destruct (isinstance e "VerificationError").
Qed.

Lemma handle_received_eq st :
  handle_received st =
    match signature_prepass st with
    | (Normal _, st1) =>
        match dispatch st1 with
        | (Normal _, st2) => (Ok None, st2)
        | (Return r, st2) => (Ok r, st2)
        | (Raise e, st2) => (Err e, st2)
        end
    | (Return r, st1) => (Ok r, st1)
    | (Raise e, st1) => (Err e, st1)
    end.
Proof.
  unfold handle_received, def. rewrite bind_eq.
  by destruct (signature_prepass st) as [[[]|r|e] st1].
Qed.

Lemma handle_received_verified st x st1 :
  verify_ld_signature st = (Ok x, st1) →
  calls st1 = calls st ∧ instance st1 = instance st
  ∧ ((∃ r, handle_received st = (r, st1)
           ∧ match r with
             | Ok s => next_state s
             | Err e => converted e = false
             end)
     ∨ (∃ h arg, handle_received st = invocation h arg st1)).
Proof.
  intros Hv. pose proof (verify_ld_signature_frame st) as [Hc Hi].
  rewrite Hv in Hc, Hi. cbn [fst snd] in *. do 2 (split; [done|]).
  rewrite handle_received_eq, signature_prepass_eq, Hv.
  destruct (dispatch_shape st1) as [(c & -> & Hcc)|(h & arg & ->)].
  - left. destruct c as [[]|r|e]; [done|by exists (Ok r)|by exists (Err e)].
  - right. exists h, arg. unfold invocation.
    destruct (run_handler h arg (world st1)) as [[e|] w]; [|done].
    by destruct (converted e).
Qed.

Lemma same_row_refl a : same_row a a.
Proof. by repeat split. Qed.

Lemma invocation_result h arg st :
  match (invocation h arg st).1 with
  | Ok s => next_state s
  | Err e => converted e = false
  end.
Proof.
  unfold invocation. destruct (run_handler h arg (world st)) as [[e|] w].
  - destruct (converted e) eqn:He; simpl; [by right|done].
  - by left.
Qed.

Lemma next_state_transition s :
  next_state s → ∃ s', s = Some s' ∧ (received, s') ∈ transitions.
Proof.
  intros [->| ->]; eexists; (split; [done|]);
    unfold transitions, transitions_to; set_solver.
Qed.

(** C8: [handle_received] only decides.  Whatever the message, it returns
    a state the graph lets [received] move to, that is [processed] or
    [errored], or it raises; and the row of the instance is as it was in
    every field but the message: [state] and [state_changed_at] are not
    written. *)
Theorem handle_received_only_decides st :
  same_row (instance st) (instance (handle_received st).2)
  ∧ match (handle_received st).1 with
    | Ok s =>
        (s = Some processed ∨ s = Some errored)
        ∧ ∃ s', s = Some s' ∧ (received, s') ∈ transitions
    | Err _ => True
    end.
Proof.
  rewrite handle_received_eq, signature_prepass_eq.
  pose proof (verify_ld_signature_frame st) as [_ Hi].
  destruct (verify_ld_signature st) as [[x|e] st1] eqn:Hv; cbn [fst snd] in *.
  - destruct (dispatch_shape st1) as [(c & -> & Hc)|(h & arg & ->)].
    + rewrite <-Hi. destruct c as [[]|r|e]; cbn [fst snd];
        [done| |split; [apply same_row_refl | done]].
      split; [apply same_row_refl|]. eauto using next_state_transition.
    + rewrite <-Hi.
      destruct (run_handler h arg (world st1)) as [[e|] w];
        [destruct (converted e)|]; cbn [fst snd];
        (split; [apply same_row_refl|]);
        eauto using next_state_transition, next_state_processed,
          next_state_errored.
  - assert (same_row (instance st) (instance st1)) as Hrow.
    { destruct (isinstance e "VerificationError");
        [destruct Hi as [_ ->]|rewrite Hi]; by repeat split. }
    destruct (isinstance e "VerificationFormatError").
    + destruct (args_0 e); cbn [fst snd]; [|done].
      split; [done|]. split; [by right|].
      apply next_state_transition. by right.
    + by destruct (isinstance e "VerificationError").
Qed.

(** ** Evaluating the two [match] statements *)

Lemma py_match_otherwise {V} `{!EqDecision V} {B} (subject : V)
    (cases : list (V * B)) otherwise :
  subject ∉ cases.*1 → py_match subject cases otherwise = otherwise subject.
Proof.
  induction cases as [|[pat body] rest IH]; simpl; [done|].
  intros Hnot. apply not_elem_of_cons in Hnot as [Hne Hrest].
  case_decide; [done|]. by apply IH.
Qed.

Lemma dispatch_eq st ty :
  message_type (instance st) = Ok ty →
  dispatch st =
    try_except
      (py_match ty
         [ ("follow", on_message Follow_handle_request_ap);
           ("block", on_message Block_handle_ap);
           ("announce",
             ot ← property message_object_type;
             if bool_decide (ot ∈ [Some "like"; Some "dislike"])
             then return_ (Some processed)
             else on_message PostInteraction_handle_ap);
           ("like", on_message PostInteraction_handle_ap);
           ("create", case_create);
           ("update", case_update);
           ("accept", case_accept);
           ("reject", case_reject);
           ("undo", case_undo);
           ("delete", case_delete);
           ("add", on_message PostInteraction_handle_add_ap);
           ("remove", on_message PostInteraction_handle_remove_ap);
           ("move", ret tt);
           ("http://litepub.social/ns#emojireact", ret tt);
           ("flag", on_message Report_handle_ap);
           ("__internal__", case_internal) ]
         (λ unknown, return_ (Some errored));;
       return_ (Some processed))
      [ (["ActivityPubError"; "JsonLdError"], λ _, return_ (Some errored)) ]
      st.
Proof.
  intros Hty. unfold dispatch, try_except, dispatch_body.
  by rewrite bind_property, Hty.
Qed.

(** The branch of a top-level type that has a case. *)
Ltac branch :=
  cbn [py_match]; repeat (case_decide; [discriminate|]);
  (case_decide; [|done]).

Lemma handle_received_verified_eq st x st1 :
  verify_ld_signature st = (Ok x, st1) →
  handle_received st =
    match dispatch st1 with
    | (Normal _, st2) => (Ok None, st2)
    | (Return r, st2) => (Ok r, st2)
    | (Raise e, st2) => (Err e, st2)
    end.
Proof. intros Hv. by rewrite handle_received_eq, signature_prepass_eq, Hv. Qed.

Lemma verified_instance st x st1 :
  verify_ld_signature st = (Ok x, st1) →
  instance st1 = instance st ∧ calls st1 = calls st.
Proof.
  intros Hv. pose proof (verify_ld_signature_frame st) as [Hc Hi].
  by rewrite Hv in Hc, Hi.
Qed.

Lemma on_message_eq h st :
  on_message h st = invoke h (JObj (message (instance st))) st.
Proof. done. Qed.

(** What [handle_received] makes of the statement [m] of a branch. *)
Lemma run_branch (m : M (option State) unit) st :
  match try_except (A:=unit) (m;; return_ (Some processed))
          [ (["ActivityPubError"; "JsonLdError"],
             λ _, return_ (Some errored)) ] st with
  | (Normal _, st2) => (Ok None, st2)
  | (Return r, st2) => (Ok r, st2)
  | (Raise e, st2) => (Err e, st2)
  end
  = match m st with
    | (Normal _, st2) => (Ok (Some processed), st2)
    | (Return r, st2) => (Ok r, st2)
    | (Raise e, st2) =>
        (if converted e then Ok (Some errored) else Err e, st2)
    end.
Proof.
  unfold try_except. rewrite bind_eq.
  destruct (m st) as [[[]|r|e] st2]; [done..|].
  rewrite select_converted. by destruct (converted e).
Qed.

Lemma run_invoke h arg st :
  match invoke (R:=option State) h arg st with
  | (Normal _, st2) => (Ok (Some processed), st2)
  | (Return r, st2) => (Ok r, st2)
  | (Raise e, st2) =>
      (if converted e then Ok (Some errored) else Err e, st2)
  end = invocation h arg st.
Proof.
  unfold invoke, invocation.
  by destruct (run_handler h arg (world st)) as [[e|] w].
Qed.

(** C5, as the code has it: a [delete] whose object is a plain string,
    once the pre-pass has completed.  The URI is looked up as an Identity
    first and the Identity delete handler is invoked if there is one;
    otherwise it is looked up as a Post and the Post delete handler is
    invoked if there is one; otherwise no handler is invoked and the
    message is [processed]. *)
Theorem delete_of_a_uri st x st1 uri :
  verify_ld_signature st = (Ok x, st1) →
  message_type (instance st) = Ok "delete" →
  message (instance st) !! "object" = Some (JStr uri) →
  calls st1 = calls st
  ∧ handle_received st =
      match Identity_objects_exists (JStr uri) (world st1) with
      | Ok true =>
          invocation Identity_handle_delete_ap
                     (JObj (message (instance st))) st1
      | Ok false =>
          match Post_objects_exists (JStr uri) (world st1) with
          | Ok true =>
              invocation Post_handle_delete_ap
                         (JObj (message (instance st))) st1
          | Ok false => (Ok (Some processed), st1)
          | Err e => (if converted e then Ok (Some errored) else Err e, st1)
          end
      | Err e => (if converted e then Ok (Some errored) else Err e, st1)
      end.
Proof.
  intros Hv Hty Hobj. destruct (verified_instance _ _ _ Hv) as [Hi Hc].
  split; [done|].
  rewrite (handle_received_verified_eq _ _ _ Hv).
  rewrite <-Hi in Hty, Hobj |- *. rewrite (dispatch_eq _ _ Hty).
  branch. clear Hty.
  assert (message_getitem "object" (instance st1) = Ok (JStr uri)) as Hget.
  { unfold message_getitem, dict_getitem. by rewrite Hobj. }
  rewrite run_branch. unfold case_delete.
  rewrite bind_property, Hget. cbn [is_dict negb].
  rewrite bind_property, Hget, bind_get_world, bind_lift.
  destruct (Identity_objects_exists (JStr uri) (world st1)) as [[]|e];
    [by rewrite on_message_eq, run_invoke| |done].
  rewrite bind_property, Hget, bind_get_world, bind_lift.
  destruct (Post_objects_exists (JStr uri) (world st1)) as [[]|e];
    [by rewrite on_message_eq, run_invoke|done..].
Qed.

(** C4: during dispatch exactly the exceptions of the federation-error
    family and the JSON-LD faults are converted to [errored].  When the
    pre-pass has completed and the dispatch has invoked a handler that
    raised [e], the message is [errored] if [e] is an [ActivityPubError]
    or a [JsonLdError], and [e] propagates out of [handle_received]
    otherwise; and no exception of these two classes ever propagates. *)
Theorem dispatch_converts_federation_errors st x st1 :
  verify_ld_signature st = (Ok x, st1) →
  (∀ h arg e w,
      calls (handle_received st).2 = calls st ++ [(h, arg)] →
      run_handler h arg (world st1) = (Some e, w) →
      handle_received st
      = (if isinstance e "ActivityPubError" || isinstance e "JsonLdError"
         then Ok (Some errored) else Err e,
         record_call h arg w st1))
  ∧ (∀ e, (handle_received st).1 = Err e →
          isinstance e "ActivityPubError" = false
          ∧ isinstance e "JsonLdError" = false).
Proof.
  intros Hv.
  destruct (handle_received_verified _ _ _ Hv)
    as (Hc & Hi & [(r & Hr & Hgood)|(h' & arg' & Hr)]); rewrite Hr.
  - split.
    + intros h arg e w Hcalls _. cbn [snd] in Hcalls. rewrite Hc in Hcalls.
      apply (f_equal length) in Hcalls. rewrite length_app in Hcalls.
      simpl in Hcalls. lia.
    + intros e [= ->]. by apply orb_false_elim in Hgood.
  - split.
    + intros h arg e w Hcalls Hrun.
      assert (calls (invocation h' arg' st1).2 = calls st1 ++ [(h', arg')])
        as Hcalls'.
      { unfold invocation.
        by destruct (run_handler h' arg' (world st1)) as [[?|] ?]. }
      cbn [snd] in Hcalls. rewrite Hcalls', Hc in Hcalls.
      apply app_inv_head in Hcalls as [= -> ->].
      unfold invocation. by rewrite Hrun.
    + intros e. pose proof (invocation_result h' arg' st1) as Hres.
      intros He. rewrite He in Hres. by apply orb_false_elim in Hres.
Qed.

Lemma message_object_type_dict (self : InboxMessage) s :
  message_object_type self = Ok (Some s) →
  ∃ d, message_getitem "object" self = Ok (JObj d).
Proof.
  unfold message_object_type.
  destruct (message_getitem "object" self) as [obj|e]; [|done].
  cbn [mbind result_bind]. by destruct obj; eauto.
Qed.

(** A branch whose [match] on the object type falls to [case unknown]. *)
Ltac unknown_object Hot Hnot :=
  rewrite run_branch, bind_property, Hot;
  rewrite py_match_otherwise; [|exact Hnot].

(** C1, as the code has it: a combination that the dispatch has no case
    for invokes no handler.  An unknown top-level type, and an unknown
    object type under [accept], [reject], [undo], [delete] and
    [__internal__], make the message [errored]; an unknown object type
    under [create] and [update] that is no post type name either leaves
    it [processed]. *)
Theorem unrecognised_combinations st x st1 ty :
  verify_ld_signature st = (Ok x, st1) →
  message_type (instance st) = Ok ty →
  calls st1 = calls st
  ∧ (ty ∉ known_types → handle_received st = (Ok (Some errored), st1))
  ∧ (∀ ot,
       message_object_type (instance st) = Ok ot →
       ot ∉ known_object_types ty →
       (ty ∈ ["accept"; "reject"; "undo"; "delete"; "__internal__"] →
        handle_received st = (Ok (Some errored), st1))
       ∧ (ty ∈ ["create"; "update"] →
          in_Post_Types_names ot = false →
          handle_received st = (Ok (Some processed), st1))).
Proof.
  intros Hv Hty. destruct (verified_instance _ _ _ Hv) as [Hi Hc].
  split; [done|].
  rewrite (handle_received_verified_eq _ _ _ Hv).
  rewrite <-Hi in Hty |- *. rewrite (dispatch_eq _ _ Hty). clear Hty.
  split.
  - intros Hnot. rewrite run_branch.
    rewrite py_match_otherwise; [done|exact Hnot].
  - intros ot Hot Hnot. split.
    + intros Hin. repeat apply elem_of_cons in Hin as [->|Hin];
        [..|by apply elem_of_nil in Hin]; branch.
      * unfold case_accept. by unknown_object Hot Hnot.
      * unfold case_reject. by unknown_object Hot Hnot.
      * unfold case_undo. by unknown_object Hot Hnot.
      * destruct ot as [s|]; [|by exfalso; apply Hnot; left].
        destruct (message_object_type_dict _ _ Hot) as [d Hd].
        rewrite run_branch. unfold case_delete.
        rewrite bind_property, Hd. cbn [is_dict negb].
        rewrite bind_property, Hot.
        rewrite py_match_otherwise; [done|].
        intros Hs. apply Hnot. by right.
      * unfold case_internal. by unknown_object Hot Hnot.
    + intros Hin Hpost. repeat apply elem_of_cons in Hin as [->|Hin];
        [..|by apply elem_of_nil in Hin]; branch.
      * unfold case_create. unknown_object Hot Hnot. by rewrite Hpost.
      * unfold case_update. unknown_object Hot Hnot. by rewrite Hpost.
Qed.

Lemma message_type_untyped (self : InboxMessage) :
  (∀ s, message self !! "type" ≠ Some (JStr s)) →
  message_type self =
    Err match message self !! "type" with
        | None => KeyError "type"
        | Some v =>
            AttributeError (no_attribute v "lower")
        end.
Proof.
  intros Hno. unfold message_type, message_getitem, dict_getitem.
  destruct (message self !! "type") as [v|]; [|done].
  destruct v; try done. by destruct (Hno s).
Qed.

(** C10, as the code has it: a message without a top-level ["type"], or
    with one that is not a string.  No handler is invoked and the message
    is never [processed]; it is [errored] only when the pre-pass ends in a
    [VerificationFormatError]; and when the pre-pass completes, as it does
    on every message without a signature, [handle_received] raises the
    [KeyError] or the [AttributeError] of the lookup, which the second
    [try] does not catch. *)
Theorem untyped_message st :
  (∀ s, message (instance st) !! "type" ≠ Some (JStr s)) →
  calls (handle_received st).2 = calls st
  ∧ match (handle_received st).1 with
    | Ok s =>
        s = Some errored
        ∧ ∃ e, (verify_ld_signature st).1 = Err e
               ∧ isinstance e "VerificationFormatError" = true
    | Err e =>
        ∀ x st1, verify_ld_signature st = (Ok x, st1) →
          handle_received st = (Err e, st1)
          ∧ e = match message (instance st) !! "type" with
                | None => KeyError "type"
                | Some v =>
                    AttributeError (no_attribute v "lower")
                end
    end.
Proof.
  intros Hno. rewrite handle_received_eq, signature_prepass_eq.
  pose proof (verify_ld_signature_frame st) as [Hc Hi].
  destruct (verify_ld_signature st) as [[x|e] st1] eqn:Hv; cbn [fst snd] in *.
  - unfold dispatch, try_except, dispatch_body. rewrite bind_property, Hi.
    rewrite (message_type_untyped _ Hno), select_converted.
    assert (∀ e', e' = match message (instance st) !! "type" with
                       | None => KeyError "type"
                       | Some v =>
                           AttributeError (no_attribute v "lower")
                       end → converted e' = false) as Hconv.
    { intros e' ->. by destruct (message (instance st) !! "type"). }
    rewrite (Hconv _ eq_refl). cbn [fst snd]. split; [done|].
    by intros x' st1' [= <- <-].
  - destruct (isinstance e "VerificationFormatError") eqn:Hf.
    + destruct (args_0 e); cbn [fst snd]; [by eauto|done].
    + by destruct (isinstance e "VerificationError").
Qed.

(** C2, first half, and what the code does in place of the second: a
    [VerificationFormatError] from the pre-pass makes the message
    [errored] at once, after the warning; any other [VerificationError]
    reaches line 40, where the value of the property [message_actor] is
    called, so that [handle_received] raises a [TypeError] and nothing is
    dispatched. *)
Theorem invalid_ld_signature st e st1 :
  verify_ld_signature st = (Err e, st1) →
  isinstance e "VerificationError" = true →
  calls st1 = calls st
  ∧ message (instance st1) !! "signature" = None
  ∧ (isinstance e "VerificationFormatError" = true →
     ∀ a, args_0 e = Ok a →
       handle_received st = (Ok (Some errored), warned a st1))
  ∧ (isinstance e "VerificationFormatError" = false →
     handle_received st = (Err (not_callable st1), st1)
     ∧ isinstance (not_callable st1) "TypeError" = true
     ∧ converted (not_callable st1) = false).
Proof.
  intros Hv He. pose proof (verify_ld_signature_frame st) as [Hc Hi].
  rewrite Hv in Hc, Hi. cbn [fst snd] in *. rewrite He in Hi.
  destruct Hi as [_ Hi]. split; [done|]. split.
  { rewrite Hi. apply lookup_delete_eq. }
  rewrite handle_received_eq, signature_prepass_eq, Hv. split.
  - intros -> a ->. done.
  - intros ->. by rewrite He.
Qed.


(* =================================================================== *)
(** ** The routes of the dispatch *)
(* =================================================================== *)

(** The errors of the two lookups are builtin exceptions, which neither
    [try] of [handle_received] has a clause for. *)
Lemma message_object_type_error (self : InboxMessage) e :
  message_object_type self = Err e →
  converted e = false
  ∧ (e = KeyError "object" ∨ e = KeyError "type"
     ∨ ∃ v, e = AttributeError (no_attribute v "lower")).
Proof.
  unfold message_object_type, message_getitem, dict_getitem.
  destruct (message self !! "object") as [obj|]; cbn [mbind result_bind];
    [|intros [= <-]; eauto].
  destruct obj; cbn [is_dict]; try done. cbn [subscript]. unfold dict_getitem.
  destruct (d !! "type") as [ty|]; cbn [mbind result_bind];
    [|intros [= <-]; eauto].
  destruct ty; cbn [method_lower mbind result_bind]; try done;
    intros [= <-]; eauto 6.
Qed.

Lemma message_object_type_None (self : InboxMessage) :
  message_object_type self = Ok None →
  ∃ obj, message_getitem "object" self = Ok obj ∧ is_dict obj = false.
Proof.
  unfold message_object_type.
  destruct (message_getitem "object" self) as [obj|e]; [|done].
  cbn [mbind result_bind]. destruct (is_dict obj) eqn:Hd; [|by eauto].
  destruct (subscript obj "type") as [ty|]; [|done].
  cbn [mbind result_bind]. by destruct (method_lower ty).
Qed.

Lemma message_object_type_unread (self : InboxMessage) e :
  message_object_type self = Err e →
  message_getitem "object" self = Err e
  ∨ ∃ d, message_getitem "object" self = Ok (JObj d).
Proof.
  unfold message_object_type.
  destruct (message_getitem "object" self) as [obj|e'];
    cbn [mbind result_bind]; [|intros [= ->]; by left].
  destruct obj; cbn [is_dict]; try done. eauto.
Qed.

(** The first case of a [match] that the subject is equal to. *)
Lemma py_match_case {V} `{!EqDecision V} {B} (subject : V)
    (cases : list (V * B)) (otherwise : V → B) (body : B) :
  py_match subject ((λ c, (c.1, Some c.2)) <$> cases)
           (λ v, Some (otherwise v))
  = Some body →
  py_match subject cases otherwise = body.
Proof.
  induction cases as [|[pat b] rest IH]; cbn [py_match fmap list_fmap].
  - by intros [= <-].
  - cbn [fst snd]. case_decide; [by intros [= <-]|done].
Qed.

(** The case of a [match] on a subject that is known. *)
Ltac select_case := erewrite py_match_case; [|reflexivity]; cbn [fst snd].

(** The branch of the top-level type, once the pre-pass has completed. *)
Ltac enter Hv Hty :=
  let Hi := fresh "Hi" in
  let Hc := fresh "Hc" in
  destruct (verified_instance _ _ _ Hv) as [Hi Hc];
  rewrite (handle_received_verified_eq _ _ _ Hv);
  rewrite <-Hi in Hty; rewrite <-?Hi; rewrite (dispatch_eq _ _ Hty);
  clear Hty.

Ltac members Hin :=
  repeat apply elem_of_cons in Hin as [Hin|Hin];
  [..|by apply elem_of_nil in Hin]; simplify_eq.

(** X1: a [follow], [block], [like], [add], [remove] or [flag] activity is
    handed to its one handler as a whole, whatever its object is and
    whether it has one. *)
Theorem plain_types_route st x st1 ty h :
  verify_ld_signature st = (Ok x, st1) →
  message_type (instance st) = Ok ty →
  (ty, h) ∈ plain_routes →
  handle_received st = invocation h (JObj (message (instance st))) st1.
Proof.
  intros Hv Hty Hin. enter Hv Hty. unfold plain_routes in Hin.
  members Hin; select_case; by rewrite run_branch, on_message_eq, run_invoke.
Qed.

(** X2: once the pre-pass has completed, a [move] activity and an emoji
    reaction are ignored: the message is [processed] and nothing happens
    after the pre-pass. *)
Theorem ignored_types st x st1 ty :
  verify_ld_signature st = (Ok x, st1) →
  message_type (instance st) = Ok ty →
  ty ∈ ["move"; "http://litepub.social/ns#emojireact"] →
  handle_received st = (Ok (Some processed), st1).
Proof.
  intros Hv Hty Hin. enter Hv Hty.
  members Hin; select_case; by rewrite run_branch.
Qed.

(** X3: once the pre-pass has completed, an [announce] of a Lemmy [like]
    or [dislike] is [processed] without any handler; every other
    [announce] whose object type can be read goes to the PostInteraction
    handler. *)
Theorem announce_route st x st1 ot :
  verify_ld_signature st = (Ok x, st1) →
  message_type (instance st) = Ok "announce" →
  message_object_type (instance st) = Ok ot →
  handle_received st =
    if bool_decide (ot ∈ [Some "like"; Some "dislike"])
    then (Ok (Some processed), st1)
    else invocation PostInteraction_handle_ap
                    (JObj (message (instance st))) st1.
Proof.
  intros Hv Hty Hot. enter Hv Hty. rewrite <-Hi in Hot. select_case.
  rewrite run_branch, bind_property, Hot.
  case_bool_decide; [done|]. by rewrite on_message_eq, run_invoke.
Qed.

(** X4: once the pre-pass has completed, a [create] of a [note] goes to
    the Post handler when the object has a ["content"] or a
    ["contentMap"] key, and to the PostInteraction handler, as an
    interaction candidate, when it has neither. *)
Theorem create_note_route st x st1 d :
  verify_ld_signature st = (Ok x, st1) →
  message_type (instance st) = Ok "create" →
  message_object_type (instance st) = Ok (Some "note") →
  message (instance st) !! "object" = Some (JObj d) →
  handle_received st =
    invocation
      (if bool_decide (is_Some (d !! "content")
                       ∨ is_Some (d !! "contentMap"))
       then Post_handle_create_ap else PostInteraction_handle_ap)
      (JObj (message (instance st))) st1.
Proof.
  intros Hv Hty Hot Hobj. enter Hv Hty. rewrite <-Hi in Hot, Hobj. select_case.
  rewrite run_branch. unfold case_create. rewrite bind_property, Hot.
  cbn [py_match]. case_decide; [|done]. rewrite bind_property.
  unfold message_object_has_content, dict_get. rewrite Hobj.
  cbn [contains mbind result_bind].
  destruct (bool_decide (is_Some (d !! "content"))) eqn:Hcontent.
  - apply bool_decide_eq_true in Hcontent.
    rewrite bool_decide_eq_true_2 by eauto.
    by rewrite on_message_eq, run_invoke.
  - apply bool_decide_eq_false in Hcontent.
    destruct (bool_decide (is_Some (d !! "contentMap"))) eqn:Hmap.
    + apply bool_decide_eq_true in Hmap.
      rewrite bool_decide_eq_true_2 by eauto.
      by rewrite on_message_eq, run_invoke.
    + apply bool_decide_eq_false in Hmap.
      rewrite bool_decide_eq_false_2 by tauto.
      by rewrite on_message_eq, run_invoke.
Qed.

(** X5: once the pre-pass has completed, under [create] and [update], an
    object type without a case of its own that is one of
    [Post.Types.names] goes to the Post handler of that branch. *)
Theorem post_type_names_route st x st1 ty ot :
  verify_ld_signature st = (Ok x, st1) →
  message_type (instance st) = Ok ty →
  message_object_type (instance st) = Ok ot →
  ot ∉ known_object_types ty →
  in_Post_Types_names ot = true →
  (ty = "create" →
   handle_received st
   = invocation Post_handle_create_ap (JObj (message (instance st))) st1)
  ∧ (ty = "update" →
     handle_received st
     = invocation Post_handle_update_ap (JObj (message (instance st))) st1).
Proof.
  intros Hv Hty Hot Hnot Hnames. enter Hv Hty. rewrite <-Hi in Hot.
  split; intros ->; select_case.
  - unfold case_create. unknown_object Hot Hnot.
    by rewrite Hnames, on_message_eq, run_invoke.
  - unfold case_update. unknown_object Hot Hnot.
    by rewrite Hnames, on_message_eq, run_invoke.
Qed.

(** X6: once the pre-pass has completed, the cases on the object type
    that hand the whole message to one handler: a [create] of a [question]; an [update] of a [note] or a
    [question] (Post) and of a [person], [service], [group],
    [organization] or [application] (Identity); an [accept] or [reject] of
    a [follow] or of an object that is no mapping; an [undo] of a
    [follow], [block], [like] or [announce]; a [delete] of a [tombstone]
    or a [note]. *)
Theorem object_type_routes st x st1 ty ot h :
  verify_ld_signature st = (Ok x, st1) →
  message_type (instance st) = Ok ty →
  message_object_type (instance st) = Ok ot →
  (ty, ot, h) ∈ object_routes →
  handle_received st = invocation h (JObj (message (instance st))) st1.
Proof.
  intros Hv Hty Hot Hin. enter Hv Hty. rewrite <-Hi in Hot.
  assert (∀ s, ot = Some s →
            ∃ d, message_getitem "object" (instance st1) = Ok (JObj d))
    as Hdict.
  { intros s ->. by eapply message_object_type_dict. }
  unfold object_routes in Hin.
  members Hin; select_case; rewrite run_branch;
    try (destruct (Hdict _ eq_refl) as [d Hd]);
    unfold case_create, case_update, case_accept, case_reject, case_undo,
      case_delete;
    rewrite bind_property;
    try (rewrite Hd; cbn [is_dict negb]; rewrite bind_property);
    rewrite Hot; select_case; by rewrite on_message_eq, run_invoke.
Qed.

(** X7: once the pre-pass has completed, the [undo] of an emoji reaction
    is ignored: the message is [processed] and no handler is invoked. *)
Theorem undo_of_emoji_reaction st x st1 :
  verify_ld_signature st = (Ok x, st1) →
  message_type (instance st) = Ok "undo" →
  message_object_type (instance st)
  = Ok (Some "http://litepub.social/ns#emojireact") →
  handle_received st = (Ok (Some processed), st1).
Proof.
  intros Hv Hty Hot. enter Hv Hty. rewrite <-Hi in Hot. select_case.
  rewrite run_branch. unfold case_undo. rewrite bind_property, Hot.
  by select_case.
Qed.

Lemma internal_route st x st1 ot h :
  verify_ld_signature st = (Ok x, st1) →
  message_type (instance st) = Ok "__internal__" →
  message_object_type (instance st) = Ok (Some ot) →
  (ot, h) ∈ internal_routes →
  ∃ d, message (instance st) !! "object" = Some (JObj d)
       ∧ handle_received st = invocation h (JObj d) st1.
Proof.
  intros Hv Hty Hot Hin. enter Hv Hty. rewrite <-Hi in Hot.
  destruct (message_object_type_dict _ _ Hot) as [d Hd]. exists d. split.
  { revert Hd. unfold message_getitem, dict_getitem.
    by destruct (message (instance st1) !! "object"); intros [= ->]. }
  select_case. rewrite run_branch. unfold case_internal.
  rewrite bind_property, Hot. unfold internal_routes in Hin.
  members Hin; select_case; unfold on_object;
    by rewrite bind_property, Hd, run_invoke.
Qed.

Lemma internal_unknown st x st1 ot :
  verify_ld_signature st = (Ok x, st1) →
  message_type (instance st) = Ok "__internal__" →
  message_object_type (instance st) = Ok ot →
  ot ∉ known_object_types "__internal__" →
  handle_received st = (Ok (Some errored), st1).
Proof.
  intros Hv Hty Hot Hnot. enter Hv Hty. rewrite <-Hi in Hot. select_case.
  unfold case_internal. by unknown_object Hot Hnot.
Qed.

(** X8: once the pre-pass has completed, an [__internal__] message is
    handed to the handler of its object type, and what the handler
    receives is the object, not the message. *)
Theorem internal_routes_on_object st x st1 ot h :
  verify_ld_signature st = (Ok x, st1) →
  message_type (instance st) = Ok "__internal__" →
  message_object_type (instance st) = Ok (Some ot) →
  (ot, h) ∈ internal_routes →
  ∃ d, message (instance st) !! "object" = Some (JObj d)
       ∧ handle_received st = invocation h (JObj d) st1.
Proof. apply internal_route. Qed.

(** X9: once the pre-pass has completed, under a top-level type whose
    branch reads the object type, a message whose object type cannot be
    read (no ["object"], a mapping
    without ["type"], or with a ["type"] that is no string) makes
    [handle_received] raise the error of the lookup; no handler is invoked
    and the message is not [errored]. *)
Theorem unreadable_object st x st1 ty e :
  verify_ld_signature st = (Ok x, st1) →
  message_type (instance st) = Ok ty →
  ty ∈ object_typed →
  message_object_type (instance st) = Err e →
  handle_received st = (Err e, st1)
  ∧ calls st1 = calls st
  ∧ (e = KeyError "object" ∨ e = KeyError "type"
     ∨ ∃ v, e = AttributeError (no_attribute v "lower")).
Proof.
  intros Hv Hty Hin Hot.
  destruct (message_object_type_error _ _ Hot) as [Hconv He].
  enter Hv Hty. rewrite <-Hi in Hot. split; [|done].
  unfold object_typed in Hin.
  members Hin; select_case; rewrite run_branch;
    unfold case_create, case_update, case_accept, case_reject, case_undo,
      case_delete, case_internal;
    rewrite bind_property; try by rewrite Hot, Hconv.
  (* delete: the object is read first *)
  destruct (message_object_type_unread _ _ Hot) as [Hobj|[d Hd]].
  - by rewrite Hobj, Hconv.
  - rewrite Hd. cbn [is_dict negb]. by rewrite bind_property, Hot, Hconv.
Qed.

(* =================================================================== *)
(** ** The effects of [handle_received] *)
(* =================================================================== *)

(** X10: [handle_received] invokes at most one handler capability.  The
    world it leaves is the one the pre-pass left when it invokes none, and
    the one that the handler made of it when it invokes one. *)
Theorem at_most_one_handler st :
  (calls (handle_received st).2 = calls st
   ∧ world (handle_received st).2 = world (verify_ld_signature st).2)
  ∨ (∃ h arg,
       calls (handle_received st).2 = calls st ++ [(h, arg)]
       ∧ world (handle_received st).2
         = (run_handler h arg (world (verify_ld_signature st).2)).2).
Proof.
  rewrite handle_received_eq, signature_prepass_eq.
  pose proof (verify_ld_signature_frame st) as [Hc _].
  destruct (verify_ld_signature st) as [[x|e] st1]; cbn [fst snd] in *.
  - destruct (dispatch_shape st1) as [(c & -> & _)|(h & arg & ->)].
    + left. by destruct c.
    + right. exists h, arg. rewrite <-Hc.
      destruct (run_handler h arg (world st1)) as [[e|] w]; [|done].
      by destruct (converted e).
  - left. destruct (isinstance e "VerificationFormatError").
    + by destruct (args_0 e).
    + by destruct (isinstance e "VerificationError").
Qed.

Lemma verify_unsigned st :
  message (instance st) !! "signature" = None →
  verify_ld_signature st = (Ok None, st).
Proof.
  intros Hsig. unfold verify_ld_signature, def.
  rewrite bind_get_message, bind_eq, Hsig.
  by rewrite bool_decide_eq_false_2 by (by intros [? ?]).
Qed.

(** X11: on a message without a ["signature"] key the pre-pass does
    nothing, so that [handle_received] either leaves the machine as it
    was, or is exactly one invocation of a handler: nothing is resolved,
    fetched or logged. *)
Theorem unsigned_message st :
  message (instance st) !! "signature" = None →
  verify_ld_signature st = (Ok None, st)
  ∧ ((∃ r, handle_received st = (r, st))
     ∨ (∃ h arg, handle_received st = invocation h arg st)).
Proof.
  intros Hv%verify_unsigned. split; [done|].
  destruct (handle_received_verified _ _ _ Hv) as (_ & _ & [(r & Hr & _)|H]);
    eauto.
Qed.

(** X12: an exception of the pre-pass that is no [VerificationError]
    leaves [handle_received] as it is, also when it is an
    [ActivityPubError] or a [JsonLdError]: the pre-pass is outside the
    [try] that converts them.  The message keeps its signature. *)
Theorem prepass_errors_propagate st e st1 :
  verify_ld_signature st = (Err e, st1) →
  isinstance e "VerificationError" = false →
  isinstance e "VerificationFormatError" = false →
  handle_received st = (Err e, st1)
  ∧ instance st1 = instance st
  ∧ calls st1 = calls st.
Proof.
  intros Hv He Hf. pose proof (verify_ld_signature_frame st) as [Hc Hi].
  rewrite Hv in Hc, Hi. cbn [fst snd] in *. rewrite He in Hi.
  by rewrite handle_received_eq, signature_prepass_eq, Hv, Hf, He.
Qed.

(** X13: a [VerificationFormatError] that carries no argument does not
    make the message [errored]: the warning reads [e.args[0]], and the
    [IndexError] leaves [handle_received]. *)
Theorem format_error_without_args st e st1 :
  verify_ld_signature st = (Err e, st1) →
  isinstance e "VerificationFormatError" = true →
  exc_args e = [] →
  handle_received st = (Err (IndexError "tuple index out of range"), st1).
Proof.
  intros Hv Hf Hargs.
  rewrite handle_received_eq, signature_prepass_eq, Hv, Hf.
  unfold args_0. by rewrite Hargs.
Qed.

(* =================================================================== *)
(** ** [verify_ld_signature], path by path *)
(* =================================================================== *)

Lemma subscript_error (v : json) key e :
  subscript v key = Err e →
  (e = KeyError key ∨ isinstance e "TypeError" = true)
  ∧ isinstance e "VerificationError" = false
  ∧ isinstance e "VerificationFormatError" = false.
Proof.
  destruct v; cbn [subscript]; try (intros [= <-]; by eauto).
  unfold dict_getitem. destruct (d !! key); [done|]. intros [= <-]. by eauto.
Qed.

(** The steps of [verify_ld_signature] up to the resolution of the
    creator. *)
Ltac resolve_creator Hsig Hc Hcreator Hwho :=
  unfold verify_ld_signature, def;
  rewrite bind_get_message, bind_eq, Hsig;
  rewrite bool_decide_eq_true_2 by eauto; cbn [ret]; unfold try_except;
  rewrite bind_property; unfold message_getitem at 1, dict_getitem;
  rewrite Hsig, bind_lift, Hc, bind_lift, Hcreator, bind_on_world, Hwho.

(** X14: a signature block that is no mapping, or a mapping without
    ["creator"], is not treated as a malformed signature: the [TypeError]
    or [KeyError] of the lookup leaves [handle_received], the message keeps
    its signature and nothing else happens. *)
Theorem signature_without_creator st sig e :
  message (instance st) !! "signature" = Some sig →
  subscript sig "creator" = Err e →
  handle_received st = (Err e, st)
  ∧ (e = KeyError "creator" ∨ isinstance e "TypeError" = true).
Proof.
  intros Hsig Hc. destruct (subscript_error _ _ _ Hc) as (Hkind & He & Hf).
  split; [|done].
  assert (verify_ld_signature st = (Err e, st)) as Hv.
  { unfold verify_ld_signature, def.
    rewrite bind_get_message, bind_eq, Hsig.
    rewrite bool_decide_eq_true_2 by eauto. cbn [ret]. unfold try_except.
    rewrite bind_property. unfold message_getitem at 1, dict_getitem.
    rewrite Hsig, bind_lift, Hc, select_VerificationError, He. done. }
  by rewrite handle_received_eq, signature_prepass_eq, Hv, Hf, He.
Qed.

(** X15: when the creator has no public key, also after [fetch_actor],
    [verify_ld_signature] raises a [VerificationError] that names the
    creator, and the message loses its signature; the document is not
    verified against any key. *)
Theorem creator_without_key st sig c creator who w who' w' :
  message (instance st) !! "signature" = Some sig →
  subscript sig "creator" = Ok c →
  urldefrag_url c = Ok creator →
  Identity_by_actor_uri creator (world st) = (Ok who, w) →
  public_key who = None →
  Identity_fetch_actor who w = (Ok who', w') →
  public_key who' = None →
  verify_ld_signature st
  = (Err (VerificationError
            [JStr "Inbox: Could not fetch actor to verify message signature: %s";
             JStr creator]),
     mkMachine
       (set_message (delete "signature" (message (instance st)))
                    (instance st))
       w' (calls st) (log st)).
Proof.
  intros Hsig Hc Hcreator Hwho Hkey Hfetch Hkey'.
  resolve_creator Hsig Hc Hcreator Hwho.
  rewrite Hkey. cbv beta iota. rewrite bind_on_world. cbn [world].
  rewrite Hfetch, Hkey'. cbv beta iota.
  rewrite bind_raise, select_VerificationError.
  change (isinstance (VerificationError _) "VerificationError") with true.
  cbv beta iota. rewrite bind_eq. unfold message_pop. cbn [instance].
  by rewrite Hsig.
Qed.


(* =================================================================== *)
(** ** The properties of the message *)
(* =================================================================== *)

Lemma prefix_refl (s : string) : String.prefix s s = true.
Proof.
  induction s as [|a s IH]; [done|]. cbn [String.prefix].
  by destruct (Ascii.ascii_dec a a).
Qed.

Lemma prefix_append (s t : string) : String.prefix s (s +:+ t) = true.
Proof.
  induction s as [|a s IH]; [by destruct t|].
  change (String a s +:+ t) with (String a (s +:+ t)). cbn [String.prefix].
  by destruct (Ascii.ascii_dec a a).
Qed.

Lemma prefix_append_l (p q s : string) :
  String.prefix (p +:+ q) s = true → String.prefix p s = true.
Proof.
  revert s. induction p as [|a p IH]; intros s; [by destruct s|].
  change (String a p +:+ q) with (String a (p +:+ q)).
  destruct s as [|b s]; [done|]. cbn [String.prefix].
  destruct (Ascii.ascii_dec a b); [apply IH|done].
Qed.

Lemma is_substring_append_l (p q s : string) :
  is_substring (p +:+ q) s = true → is_substring p s = true.
Proof.
  induction s as [|b s IH]; cbn [is_substring].
  - rewrite !orb_false_r. apply prefix_append_l.
  - intros [Hp|Hs]%orb_true_iff; apply orb_true_iff.
    + left. by eapply prefix_append_l.
    + right. by apply IH.
Qed.

(** X17: [message_type_full].  When the message has no ["object"], or one
    that is no mapping, it is [message_type] (the missing key is no error
    here).  When it returns, [message_type] is a prefix of what it
    returns, and the rest, if any, is a dot and the type of the object;
    when it raises, it is with the error of one of the two properties. *)
Theorem message_type_full_cases (self : InboxMessage) :
  (is_dict (dict_get (message self) "object" JNull) = false →
   message_type_full self = message_type self)
  ∧ match message_type_full self with
    | Ok full =>
        ∃ ty, message_type self = Ok ty
              ∧ String.prefix ty full = true
              ∧ (full = ty
                 ∨ ∃ s, message_object_type self = Ok (Some s)
                        ∧ full = ty +:+ "." +:+ s)
    | Err e =>
        message_type self = Err e ∨ message_object_type self = Err e
    end.
Proof.
  unfold message_type_full. split.
  - intros ->. by destruct (message_type self).
  - destruct (is_dict (dict_get (message self) "object" JNull)) eqn:Hd.
    + destruct (message_type self) as [ty|e]; cbn [mbind result_bind];
        [|by left].
      destruct (message_object_type self) as [[s|]|e] eqn:Hot;
        cbn [mbind result_bind format_optional]; [| |by right].
      * exists ty. split; [done|]. split; [apply prefix_append|]. eauto.
      * exfalso. apply message_object_type_None in Hot as (obj & Hobj & Hno).
        revert Hobj Hd. unfold message_getitem, dict_getitem, dict_get.
        destruct (message self !! "object"); [|done].
        intros [= ->]. by rewrite Hno.
    + destruct (message_type self) as [ty|e]; cbn [mbind result_bind];
        [|by left].
      exists ty. split; [done|]. split; [|by left].
      apply prefix_refl.
Qed.

(** X18: [message_object_has_content].  Without an ["object"] it is
    [False]; on a mapping it tells whether the mapping has a ["content"]
    or a ["contentMap"] key; on a string it is the substring test for
    ["content"]; on [None], a boolean or a number it raises a
    [TypeError]. *)
Theorem message_object_has_content_cases (self : InboxMessage) :
  match message self !! "object" with
  | None => message_object_has_content self = Ok false
  | Some (JObj d) =>
      message_object_has_content self
      = Ok (bool_decide (is_Some (d !! "content")
                         ∨ is_Some (d !! "contentMap")))
  | Some (JStr s) =>
      message_object_has_content self = Ok (is_substring "content" s)
  | Some (JArr l) =>
      ∃ b, message_object_has_content self = Ok b
           ∧ (b = true ↔ JStr "content" ∈ l ∨ JStr "contentMap" ∈ l)
  | Some _ =>
      ∃ e, message_object_has_content self = Err e
           ∧ isinstance e "TypeError" = true
  end.
Proof.
  unfold message_object_has_content, dict_get.
  destruct (message self !! "object") as [v|]; [|done].
  destruct v; cbn [contains mbind result_bind]; eauto.
  - (* a string *)
    destruct (is_substring "content" s) eqn:Hc; [done|]. f_equal.
    apply not_true_is_false. intros Hm.
    apply (is_substring_append_l "content" "Map") in Hm. congruence.
  - (* a list *)
    assert (∀ key, existsb (λ x, match x with
                                 | JStr s => bool_decide (s = key)
                                 | _ => false
                                 end) l = true
                   ↔ JStr key ∈ l) as Hin.
    { intros key. induction l as [|y l IH]; cbn [existsb].
      - split; [done|by intros ?%elem_of_nil].
      - rewrite orb_true_iff, IH, elem_of_cons.
        destruct y; rewrite ?bool_decide_eq_true;
          (split; [intros [?|?]|intros [[= ?]|?]]); subst; eauto; done. }
    pose proof (Hin "content") as Hcontent.
    destruct (existsb _ l) eqn:Hc in Hcontent |- *.
    + exists true. split; [done|]. split; [|done]. intros _. left.
      by apply Hcontent.
    + eexists. split; [done|]. rewrite Hin. split; [by right|].
      intros [Hl|Hr]; [|done]. apply Hcontent in Hl. congruence.
  - (* a mapping *)
    destruct (bool_decide (is_Some (d !! "content"))) eqn:Hc.
    + apply bool_decide_eq_true in Hc. by rewrite bool_decide_eq_true_2 by eauto.
    + apply bool_decide_eq_false in Hc. f_equal.
      apply eq_true_iff_eq. rewrite !bool_decide_eq_true. tauto.
Qed.

(* =================================================================== *)
(** ** [verify_ld_signature] and the signature field *)
(* =================================================================== *)

(** Lines 248-252: the identity the document is verified against, which is
    the one [by_actor_uri] gives, fetched when it comes without a key. *)
Definition resolve (creator : string) (w : W) : result Identity * W :=
  match Identity_by_actor_uri creator w with
  | (Ok who, w1) =>
      match public_key who with
      | Some _ => (Ok who, w1)
      | None => Identity_fetch_actor who w1
      end
  | (Err e, w1) => (Err e, w1)
  end.

(** The machine after the signature was popped, in the world [w]. *)
Definition stripped (w : W) (st : machine) : machine :=
  mkMachine
    (set_message (delete "signature" (message (instance st))) (instance st))
    w (calls st) (log st).

(** [verify_ld_signature] on a signature whose creator resolves. *)
Lemma verify_ld_signature_resolved st sig c creator who w :
  message (instance st) !! "signature" = Some sig →
  subscript sig "creator" = Ok c →
  urldefrag_url c = Ok creator →
  resolve creator (world st) = (Ok who, w) →
  verify_ld_signature st =
    match public_key who with
    | None =>
        (Err (VerificationError
                [JStr "Inbox: Could not fetch actor to verify message signature: %s";
                 JStr creator]),
         stripped w st)
    | Some key =>
        match LDSignature_verify_signature (message (instance st)) key with
        | Some e =>
            (Err e,
             if isinstance e "VerificationError" then stripped w st
             else mkMachine (instance st) w (calls st) (log st))
        | None =>
            match message (instance st) !! "type" with
            | Some ty =>
                (Ok (Some who),
                 mkMachine (instance st) w (calls st)
                   (log st
                    ++ [mkLog "debug" "Inbox: %s from %s has good LD signature"
                          [LogValue ty; LogValue (JStr creator)]]))
            | None =>
                (Err (KeyError "type"),
                 mkMachine (instance st) w (calls st) (log st))
            end
        end
    end.
Proof.
  intros Hsig Hc Hcreator Hres. unfold resolve in Hres.
  destruct (Identity_by_actor_uri creator (world st)) as [[who0|e0] w0]
    eqn:Hwho; [|done].
  resolve_creator Hsig Hc Hcreator Hwho.
  assert (∀ (k : Identity → M (option Identity) unit) st',
            (match public_key who0 with
             | Some _ => ret who0
             | None => on_world (Identity_fetch_actor who0)
             end ≫= k)
              (mkMachine (instance st) w0 (calls st) (log st))
            = st' →
            k who (mkMachine (instance st) w (calls st) (log st)) = st')
    as Hstep.
  { intros k st' <-. destruct (public_key who0).
    - injection Hres as <- <-. by rewrite bind_ret.
    - rewrite bind_on_world. cbn [world]. by rewrite Hres. }
  match goal with |- context [mbind ?k _ (mkMachine _ w0 _ _)] =>
    rewrite <-(Hstep k _ eq_refl) end.
  clear Hstep. destruct (public_key who) as [key|].
  - rewrite bind_ret, bind_get_message. cbn [instance].
    destruct (LDSignature_verify_signature (message (instance st)) key)
      as [e|].
    + rewrite bind_raise, select_VerificationError.
      destruct (isinstance e "VerificationError"); [|done].
      rewrite bind_eq. unfold message_pop. cbn [instance]. by rewrite Hsig.
    + rewrite bind_ret, bind_property. cbn [instance].
      unfold message_getitem, dict_getitem.
      destruct (message (instance st) !! "type") as [ty|].
      * by rewrite bind_logger.
      * by rewrite select_VerificationError.
  - rewrite bind_raise, select_VerificationError.
    change (isinstance (VerificationError _) "VerificationError") with true.
    cbv beta iota. rewrite bind_eq. unfold message_pop. cbn [instance].
    by rewrite Hsig.
Qed.

(** C6: [verify_ld_signature] and the signature field.  Whenever it
    returns, the message is as it was, signature included; whenever it
    raises a [VerificationError], the message had a signature and has lost
    it before the exception leaves; whenever it raises anything else, the
    message is as it was.  And once the creator resolves to an identity,
    with the key it came with or with the one that was fetched: a document
    that verifies keeps its signature and the identity is returned; the
    [VerificationError] of one that does not verify is re-raised after
    the pop; and so is the one raised when there is no key to verify
    against. *)
Theorem verify_ld_signature_keeps_or_pops st :
  match (verify_ld_signature st).1 with
  | Ok _ =>
      message (instance (verify_ld_signature st).2) = message (instance st)
  | Err e =>
      if isinstance e "VerificationError"
      then is_Some (message (instance st) !! "signature")
           ∧ message (instance (verify_ld_signature st).2)
             = delete "signature" (message (instance st))
      else message (instance (verify_ld_signature st).2)
           = message (instance st)
  end
  ∧ ∀ sig c creator who w,
      message (instance st) !! "signature" = Some sig →
      subscript sig "creator" = Ok c →
      urldefrag_url c = Ok creator →
      resolve creator (world st) = (Ok who, w) →
      match public_key who with
      | None =>
          verify_ld_signature st
          = (Err (VerificationError
                    [JStr "Inbox: Could not fetch actor to verify message signature: %s";
                     JStr creator]),
             stripped w st)
      | Some key =>
          match LDSignature_verify_signature (message (instance st)) key with
          | None =>
              message (instance (verify_ld_signature st).2) !! "signature"
              = Some sig
              ∧ (is_Some (message (instance st) !! "type") →
                 (verify_ld_signature st).1 = Ok (Some who))
          | Some e =>
              isinstance e "VerificationError" = true →
              verify_ld_signature st = (Err e, stripped w st)
          end
      end.
Proof.
  split.
  - pose proof (verify_ld_signature_frame st) as [_ Hi].
    destruct (verify_ld_signature st).1 as [?|e]; [by rewrite Hi|].
    destruct (isinstance e "VerificationError"); [|by rewrite Hi].
    destruct Hi as [? ->]. done.
  - intros sig c creator who w Hsig Hc Hcreator Hres.
    rewrite (verify_ld_signature_resolved _ _ _ _ _ _ Hsig Hc Hcreator Hres).
    destruct (public_key who) as [key|]; [|done].
    destruct (LDSignature_verify_signature (message (instance st)) key)
      as [e|].
    + by intros ->.
    + destruct (message (instance st) !! "type") as [ty|]; cbn [fst snd instance].
      * done.
      * split; [done|]. by intros [? ?].
Qed.

End Pipeline.

(* ===================================================================== *)
(** * The queue engine and the state of a message *)
(* ===================================================================== *)

Section Engine.

Context {W : Type} `{!Collaborators W}.

(** Modelled from the spec: the queue engine ([stator]) is not among the
    sources.  [lock_free] is the spec's "[locked_until] is null or in the
    past". *)
Definition lock_free (now : Z) (row : InboxMessage) : bool :=
  match locked_until row with
  | None => true
  | Some t => bool_decide (t < now)%Z
  end.

(** Modelled from the spec: [stator]'s scheduling is not among the sources.
    A message is due at once when it was never attempted, and again every
    [try_interval] of its state after an attempt; a state without
    [try_interval] is never due. *)
Definition due (now : Z) (row : InboxMessage) : bool :=
  match try_interval (state row), last_attempt_at row with
  | None, _ => false
  | Some _, None => true
  | Some interval, Some t => bool_decide (t + interval ≤ now)%Z
  end.

(** Modelled from the spec: [stator]'s selection of the rows to claim is
    not among the sources.  A worker claims the due messages in [received]
    whose lock is free. *)
Definition claimable (now : Z) (row : InboxMessage) : bool :=
  bool_decide (state row = received) && due now row && lock_free now row.

(** Modelled from the spec: [stator]'s claim is not among the sources.  It
    sets [locked_until = now + lease_duration] and
    [last_attempt_at = now]. *)
Definition claim (now lease : Z) (row : InboxMessage) : InboxMessage :=
  mkInboxMessage (id row) (message row) (state row) (state_changed_at row)
                 (Some now) (Some (now + lease)%Z).

(** Modelled from the spec: [stator]'s commit is not among the sources.
    The engine transitions the row to the state the handler returned,
    updating [state_changed_at], and clears the lock; when the handler
    raised (or gave no state) the row stays in its state for a retry, and
    the lock is cleared. *)
Definition commit (now : Z) (target : result (option State))
    (row : InboxMessage) : InboxMessage :=
  match target with
  | Ok (Some next) =>
      mkInboxMessage (id row) (message row) next now (last_attempt_at row)
                     None
  | _ =>
      mkInboxMessage (id row) (message row) (state row)
                     (state_changed_at row) (last_attempt_at row) None
  end.

(** Modelled from the spec: [stator]'s worker is not among the sources.
    One attempt of a worker on a stored row: the row is claimed if it can
    be, [handle_received] runs on the claimed row, and what it returned is
    committed.  What the handler did to its copy of the message is not
    stored. *)
Definition worker_attempt (now lease : Z) (row : InboxMessage) (w : W)
    : InboxMessage * W :=
  if claimable now row then
    let claimed := claim now lease row in
    let '(target, st) := handle_received (mkMachine claimed w [] []) in
    (commit now target claimed, world st)
  else (row, w).

(** The attempts of the workers at the given times, in order. *)
Fixpoint worker_attempts (times : list Z) (lease : Z) (row : InboxMessage)
    (w : W) : InboxMessage * W :=
  match times with
  | [] => (row, w)
  | now :: later =>
      let '(row', w') := worker_attempt now lease row w in
      worker_attempts later lease row' w'
  end.




End Engine.

(* ===================================================================== *)
(** * [InboxMessage.create_internal] *)
(* ===================================================================== *)

(** Modelled from the spec: the manager's [objects.create] is not among the
    sources.  By the spec's data model a message gets a unique id at
    creation and starts in [received]; the table is the list of its rows. *)
Definition objects_create (now : Z) (m : gmap string json)
    (table : list InboxMessage) : InboxMessage * list InboxMessage :=
  let row :=
    mkInboxMessage (foldr Z.max 0%Z (id <$> table) + 1)%Z m received now
                   None None in
  (row, table ++ [row]).

(** Creates an internal action message.  The body is one expression
    statement, so the call evaluates to [None]. *)
Definition create_internal (now : Z) (payload : json)
    (table : list InboxMessage) : json * list InboxMessage :=
  let '(_, table') :=
    objects_create now
      {[ "type" := JStr "__internal__"; "object" := payload ]} table in
  (JNull, table').

(* ===================================================================== *)
(** * A concrete environment *)
(* ===================================================================== *)

(** A small instance of [Collaborators], on which the pipeline runs by
    computation: the examples below are evaluated in it. *)
Module Fixture.

Definition lower_ascii (c : ascii) : ascii :=
  let n := nat_of_ascii c in
  if (65 <=? n)%nat && (n <=? 90)%nat then ascii_of_nat (n + 32) else c.

Fixpoint lower (s : string) : string :=
  match s with
  | EmptyString => EmptyString
  | String c rest => String (lower_ascii c) (lower rest)
  end.

Fixpoint before_hash (s : string) : string :=
  match s with
  | EmptyString => EmptyString
  | String c rest =>
      if Ascii.eqb c "#" then EmptyString else String c (before_hash rest)
  end.

(** The database: the actor URIs and object URIs it holds, and the
    handlers that reject what they are given, with what they raise. *)
Record World : Type := mkWorld {
  identities : list string;
  posts : list string;
  rejecting : list (handler * exception)
}.

Definition uri_in (x : json) (uris : list string) : bool :=
  match x with
  | JStr uri => bool_decide (uri ∈ uris)
  | _ => false
  end.

Definition VerificationFormatError (msg : string) : exception :=
  Exc ["VerificationFormatError"; "VerificationError"; "BaseException"]
      [JStr msg].

(** A stand-in for the RSA check: the value that verifies under [key] is
    the text ["signed:" ++ key]. *)
Definition check_signature (document : gmap string json) (key : string)
    : option exception :=
  match document !! "signature" with
  | Some (JObj sig) =>
      match sig !! "type", sig !! "signatureValue" with
      | Some (JStr ty), Some (JStr value) =>
          if bool_decide (lower ty = "rsasignature2017") then
            if bool_decide (value = "signed:" +:+ key) then None
            else Some (VerificationError [JStr "Signature mismatch"])
          else Some (VerificationFormatError "Unknown signature type")
      | _, _ => Some (VerificationFormatError "Invalid signature section")
      end
  | _ => Some (VerificationFormatError "Invalid signature section")
  end.

Fixpoint rejection (h : handler) (l : list (handler * exception))
    : option exception :=
  match l with
  | [] => None
  | (h', e) :: rest => if decide (h = h') then Some e else rejection h rest
  end.

Global Instance env : Collaborators World := {|
  str_lower := lower;
  urldefrag_url := λ x,
    match x with
    | JStr s => Ok (before_hash s)
    | _ => Err (TypeError "expected a string")
    end;
  Identity_by_actor_uri := λ uri w,
    (Ok (mkIdentity uri (Some ("key of " +:+ uri))), w);
  Identity_fetch_actor := λ i w, (Ok i, w);
  LDSignature_verify_signature := check_signature;
  Post_Types_names :=
    ["article"; "audio"; "event"; "image"; "note"; "page"; "question";
     "video"];
  Identity_objects_exists := λ x w, Ok (uri_in x (identities w));
  Post_objects_exists := λ x w, Ok (uri_in x (posts w));
  run_handler := λ h arg w, (rejection h (rejecting w), w)
|}.

Definition empty_world : World := mkWorld [] [] [].

(** A claimed message: a row in [received], on a fresh machine. *)
Definition claimed (m : gmap string json) (w : World) : machine :=
  mkMachine (mkInboxMessage 1 m received 0 (Some 0%Z) (Some 60%Z)) w [] [].

End Fixture.


(* ===================================================================== *)
(** * The internal enqueue *)
(* ===================================================================== *)

Lemma id_below_max (table : list InboxMessage) (row : InboxMessage) :
  row ∈ table → (id row ≤ foldr Z.max 0 (id <$> table))%Z.
Proof.
  induction table as [|first rest IH]; [by intros ?%elem_of_nil|].
  intros [->|Hin]%elem_of_cons; cbn [fmap list_fmap foldr]; [lia|].
  specialize (IH Hin). lia.
Qed.

(** C9, as the code has it: [create_internal] adds one message to the
    table, in [received] and under an id no other row has, whose top-level
    type is ["__internal__"] and whose object is the payload; the call
    itself evaluates to [None], not to the id. *)
Theorem create_internal_creates (now : Z) (payload : json)
    (table : list InboxMessage) :
  ∃ row,
    create_internal now payload table = (JNull, table ++ [row])
    ∧ message row = {[ "type" := JStr "__internal__"; "object" := payload ]}
    ∧ message row !! "type" = Some (JStr "__internal__")
    ∧ message row !! "object" = Some payload
    ∧ state row = received
    ∧ ∀ old, old ∈ table → id old ≠ id row.
Proof.
  eexists. split; [reflexivity|]. cbn [message state id].
  split; [done|]. split; [done|]. split; [done|]. split; [done|].
  intros old Hold%id_below_max. lia.
Qed.

(** C9 fails as stated: the call that creates message 1 evaluates to
    [None]. *)
Lemma create_internal_returns_no_id :
  let payload := JObj {[ "type" := JStr "FetchPost" ]} in
  (create_internal 0 payload []).1 = JNull
  ∧ id <$> (create_internal 0 payload []).2 = [1%Z]
  ∧ (create_internal 0 payload []).1 ≠ JInt 1.
Proof. by vm_compute. Qed.

(* ===================================================================== *)
(** * The pipeline at work *)
(* ===================================================================== *)

Module Examples.

Import Fixture.

Definition creator_uri : string := "https://example.com/test-actor#test-key".

(** A signature block for the stand-in check of the fixture. *)
Definition signature_block (ty value : string) : json :=
  JObj {[ "type" := JStr ty; "creator" := JStr creator_uri;
          "signatureValue" := JStr value ]}.

Definition unknown_type : gmap string json :=
  {[ "type" := JStr "Bogus"; "actor" := JStr "https://example.com/a" ]}.

Definition create_bogus : gmap string json :=
  {[ "type" := JStr "Create";
     "object" := JObj {[ "type" := JStr "Bogus" ]} ]}.

Definition accept_unknown : gmap string json :=
  {[ "type" := JStr "Accept";
     "object" := JObj {[ "type" := JStr "Unknown" ]} ]}.

Definition delete_uri : gmap string json :=
  {[ "type" := JStr "Delete"; "object" := JStr "https://x/1" ]}.

Definition follow : gmap string json :=
  {[ "type" := JStr "Follow"; "actor" := JStr "https://example.com/a";
     "object" := JStr "https://example.com/b" ]}.

Definition mismatched : gmap string json :=
  {[ "type" := JStr "Create"; "actor" := JStr "https://example.com/evil";
     "signature" := signature_block "RsaSignature2017" "forged" ]}.

Definition malformed_untyped : gmap string json :=
  {[ "actor" := JStr "https://example.com/a";
     "signature" := signature_block "Ed25519Signature2018" "forged" ]}.

Definition untyped : gmap string json :=
  {[ "object" := JStr "https://example.com/b" ]}.

Definition ActorMismatchError : exception :=
  Exc ["ActorMismatchError"; "ActivityPubError"; "BaseException"]
      [JStr "Actor mismatch"].

Definition ValueError : exception :=
  Exc ["ValueError"; "Exception"; "BaseException"] [JStr "bad value"].

End Examples.

(** C1 fails as stated: a [Create] of an object of unknown type comes back
    [processed], not [errored]; no handler is invoked. *)
Lemma create_of_unknown_object_is_processed :
  let st := Fixture.claimed Examples.create_bogus Fixture.empty_world in
  message_type (instance st) = Ok "create"
  ∧ message_object_type (instance st) = Ok (Some "bogus")
  ∧ handle_received st = (Ok (Some processed), st)
  ∧ (handle_received st).1 ≠ Ok (Some errored).
Proof. by vm_compute. Qed.

(** [unrecognised_combinations] at three messages: an unknown type, an
    [Accept] of an unknown object and a [Create] of an unknown object. *)
Lemma unrecognised_combinations_witness :
  let bogus := Fixture.claimed Examples.unknown_type Fixture.empty_world in
  let accept := Fixture.claimed Examples.accept_unknown Fixture.empty_world in
  let create := Fixture.claimed Examples.create_bogus Fixture.empty_world in
  handle_received bogus = (Ok (Some errored), bogus)
  ∧ handle_received accept = (Ok (Some errored), accept)
  ∧ handle_received create = (Ok (Some processed), create).
Proof.
  intros bogus accept create. split; [|split].
  - refine (proj1 (proj2 (unrecognised_combinations bogus None bogus "bogus"
                            _ _)) _).
    + vm_compute; reflexivity.
    + vm_compute; reflexivity.
    + apply (bool_decide_unpack _). vm_compute. exact I.
  - refine (proj1 (proj2 (proj2 (unrecognised_combinations accept None accept
                                   "accept" _ _))
                     (Some "unknown") _ _) _).
    + vm_compute; reflexivity.
    + vm_compute; reflexivity.
    + vm_compute; reflexivity.
    + apply (bool_decide_unpack _). vm_compute. exact I.
    + apply (bool_decide_unpack _). vm_compute. exact I.
  - refine (proj2 (proj2 (proj2 (unrecognised_combinations create None create
                                   "create" _ _))
                     (Some "bogus") _ _) _ _).
    + vm_compute; reflexivity.
    + vm_compute; reflexivity.
    + vm_compute; reflexivity.
    + apply (bool_decide_unpack _). vm_compute. exact I.
    + apply (bool_decide_unpack _). vm_compute. exact I.
    + vm_compute; reflexivity.
Defined.

(** C2 at a message whose LD signature does not verify: the call of line 40
    raises, and nothing is dispatched. *)
Lemma invalid_ld_signature_witness :
  let st := Fixture.claimed Examples.mismatched Fixture.empty_world in
  (verify_ld_signature st).1
  = Err (VerificationError [JStr "Signature mismatch"])
  ∧ (handle_received st).1 = Err (TypeError "'str' object is not callable")
  ∧ calls (handle_received st).2 = [].
Proof.
  intros st.
  pose proof (invalid_ld_signature st
                (VerificationError [JStr "Signature mismatch"])
                (verify_ld_signature st).2) as Hthm.
  split; [vm_compute; reflexivity|].
  destruct Hthm as (_ & _ & _ & Hraise).
  - vm_compute; reflexivity.
  - vm_compute; reflexivity.
  - destruct Hraise as (-> & _ & _); [vm_compute; reflexivity|].
    split; vm_compute; reflexivity.
Defined.

(** [dispatch_converts_federation_errors] at a [Follow] whose handler
    raises: an [ActivityPubError] makes the message [errored], a
    [ValueError] propagates. *)
Lemma dispatch_converts_federation_errors_witness :
  let arg := JObj Examples.follow in
  let refused e := Fixture.mkWorld [] [] [(Follow_handle_request_ap, e)] in
  let st e := Fixture.claimed Examples.follow (refused e) in
  handle_received (st Examples.ActorMismatchError)
  = (Ok (Some errored),
     record_call Follow_handle_request_ap arg
       (refused Examples.ActorMismatchError)
       (st Examples.ActorMismatchError))
  ∧ handle_received (st Examples.ValueError)
    = (Err Examples.ValueError,
       record_call Follow_handle_request_ap arg
         (refused Examples.ValueError) (st Examples.ValueError)).
Proof.
  intros arg refused st. split.
  - refine (proj1 (dispatch_converts_federation_errors
                     (st Examples.ActorMismatchError) None
                     (st Examples.ActorMismatchError) _)
              Follow_handle_request_ap arg Examples.ActorMismatchError
              (refused Examples.ActorMismatchError) _ _);
      vm_compute; reflexivity.
  - refine (proj1 (dispatch_converts_federation_errors
                     (st Examples.ValueError) None
                     (st Examples.ValueError) _)
              Follow_handle_request_ap arg Examples.ValueError
              (refused Examples.ValueError) _ _);
      vm_compute; reflexivity.
Defined.

(** [delete_of_a_uri] at the [Delete] of a URI, in a world that holds
    nothing under it, in one that holds an Identity and in one that holds a
    Post. *)
Lemma delete_of_a_uri_witness :
  let arg := JObj Examples.delete_uri in
  let gone := Fixture.claimed Examples.delete_uri Fixture.empty_world in
  let actor :=
    Fixture.claimed Examples.delete_uri
      (Fixture.mkWorld ["https://x/1"] ["https://x/1"] []) in
  let post :=
    Fixture.claimed Examples.delete_uri
      (Fixture.mkWorld [] ["https://x/1"] []) in
  handle_received gone = (Ok (Some processed), gone)
  ∧ calls (handle_received actor).2 = [(Identity_handle_delete_ap, arg)]
  ∧ calls (handle_received post).2 = [(Post_handle_delete_ap, arg)].
Proof.
  intros arg gone actor post. split; [|split].
  - refine (eq_trans (proj2 (delete_of_a_uri gone None gone "https://x/1"
                               _ _ _)) _); vm_compute; reflexivity.
  - rewrite (proj2 (delete_of_a_uri actor None actor "https://x/1"
                      ltac:(vm_compute; reflexivity)
                      ltac:(vm_compute; reflexivity)
                      ltac:(vm_compute; reflexivity))).
    vm_compute; reflexivity.
  - rewrite (proj2 (delete_of_a_uri post None post "https://x/1"
                      ltac:(vm_compute; reflexivity)
                      ltac:(vm_compute; reflexivity)
                      ltac:(vm_compute; reflexivity))).
    vm_compute; reflexivity.
Defined.

(** C5 fails as stated: the [Delete] of a URI that carries a malformed
    signature block is [errored] by the pre-pass.  Nothing is looked up:
    the Identity that exists under the URI gets no call, and where nothing
    exists under it the message is not [processed]. *)
Lemma delete_of_a_uri_with_malformed_signature :
  let m :=
    <["signature" := Examples.signature_block "Ed25519Signature2018" "forged"]>
      Examples.delete_uri in
  let known :=
    Fixture.claimed m (Fixture.mkWorld ["https://x/1"] ["https://x/1"] []) in
  let gone := Fixture.claimed m Fixture.empty_world in
  message_type (instance known) = Ok "delete"
  ∧ message (instance known) !! "object" = Some (JStr "https://x/1")
  ∧ Identity_objects_exists (JStr "https://x/1") (world known) = Ok true
  ∧ (handle_received known).1 = Ok (Some errored)
  ∧ calls (handle_received known).2 = []
  ∧ (handle_received gone).1 = Ok (Some errored)
  ∧ (handle_received gone).1 ≠ Ok (Some processed).
Proof. by vm_compute. Qed.

(** C10 fails as stated: a message without ["type"] whose signature block
    is malformed comes back [errored]. *)
Lemma malformed_signature_without_type_is_errored :
  let st := Fixture.claimed Examples.malformed_untyped Fixture.empty_world in
  message (instance st) !! "type" = None
  ∧ (verify_ld_signature st).1
    = Err (Fixture.VerificationFormatError "Unknown signature type")
  ∧ (handle_received st).1 = Ok (Some errored).
Proof. by vm_compute. Qed.

(** [untyped_message] at a message without ["type"] and without
    signature: the [KeyError] of the lookup leaves [handle_received]. *)
Lemma untyped_message_witness :
  let st := Fixture.claimed Examples.untyped Fixture.empty_world in
  message (instance st) !! "type" = None
  ∧ handle_received st = (Err (KeyError "type"), st).
Proof.
  intros st. split; [vm_compute; reflexivity|].
  assert (∀ s, message (instance st) !! "type" ≠ Some (JStr s)) as Hno.
  { intros s. vm_compute. discriminate. }
  pose proof (proj2 (untyped_message st Hno)) as Hthm.
  change ((handle_received st).1) with (Err (A:=option State) (KeyError "type"))
    in Hthm.
  apply (Hthm None st). vm_compute; reflexivity.
Defined.

(* ===================================================================== *)
(** * From the internal enqueue to the dispatch *)
(* ===================================================================== *)

Section Internal.

Context {W : Type} `{!Collaborators W}.

(** X19: a message made by [create_internal], once claimed, is dispatched
    on its payload: a payload that is a mapping whose type is one of the
    internal actions is handed, itself, to the handler of the action; a
    payload that is no mapping makes the message [errored].  Nothing is
    verified, as the message has no signature. *)
Theorem internal_message_is_dispatched (now : Z) (payload : json)
    (table : list InboxMessage) (row : InboxMessage) (w : W)
    (cs : list (handler * json)) (lg : list log_record) :
  str_lower "__internal__" = "__internal__" →
  last (create_internal now payload table).2 = Some row →
  (∀ d t h,
     payload = JObj d →
     d !! "type" = Some (JStr t) →
     (str_lower t, h) ∈ internal_routes →
     handle_received (mkMachine row w cs lg)
     = invocation h payload (mkMachine row w cs lg))
  ∧ (is_dict payload = false →
     handle_received (mkMachine row w cs lg)
     = (Ok (Some errored), mkMachine row w cs lg)).
Proof.
  intros Hlower Hrow.
  unfold create_internal, objects_create in Hrow. cbn [snd] in Hrow.
  rewrite last_snoc in Hrow. injection Hrow as <-.
  set (row := mkInboxMessage _ _ _ _ _ _).
  set (st := mkMachine row w cs lg).
  assert (message (instance st) !! "signature" = None) as Hsig by done.
  assert (message (instance st) !! "object" = Some payload) as Hobj by done.
  pose proof (verify_unsigned st Hsig) as Hv.
  assert (message_type (instance st) = Ok "__internal__") as Hty.
  { assert (message (instance st) !! "type" = Some (JStr "__internal__"))
      as Htype by done.
    unfold message_type, message_getitem, dict_getitem. rewrite Htype.
    cbn [mbind result_bind method_lower]. by rewrite Hlower. }
  split.
  - intros d t h -> Ht Hin.
    assert (message_object_type (instance st) = Ok (Some (str_lower t)))
      as Hot.
    { unfold message_object_type, message_getitem, dict_getitem.
      rewrite Hobj. cbn [mbind result_bind is_dict subscript].
      unfold dict_getitem. by rewrite Ht. }
    destruct (internal_route _ _ _ _ _ Hv Hty Hot Hin) as (d' & Hd' & ->).
    rewrite Hobj in Hd'. by injection Hd' as <-.
  - intros Hno.
    assert (message_object_type (instance st) = Ok None) as Hot.
    { unfold message_object_type, message_getitem, dict_getitem.
      rewrite Hobj. cbn [mbind result_bind]. by rewrite Hno. }
    apply (internal_unknown _ _ _ _ Hv Hty Hot).
    apply (bool_decide_unpack _). by vm_compute.
Qed.

End Internal.

(* ===================================================================== *)
(** * The routes at work *)
(* ===================================================================== *)

Module Scenarios.

Import Fixture.

(** The fixture, with another resolution of actors and another check of
    signatures. *)
Definition custom
    (by_actor_uri : string → World → result Identity * World)
    (fetch_actor : Identity → World → result Identity * World)
    (verify : gmap string json → string → option exception)
    : Collaborators World := {|
  str_lower := lower;
  urldefrag_url := urldefrag_url (Collaborators := env);
  Identity_by_actor_uri := by_actor_uri;
  Identity_fetch_actor := fetch_actor;
  LDSignature_verify_signature := verify;
  Post_Types_names := Post_Types_names (Collaborators := env);
  Identity_objects_exists := Identity_objects_exists (Collaborators := env);
  Post_objects_exists := Post_objects_exists (Collaborators := env);
  run_handler := run_handler (Collaborators := env)
|}.

Definition keyless (uri : string) : Identity := mkIdentity uri None.

(** The actor cannot be resolved: the resolution raises. *)
Definition unresolvable : Collaborators World :=
  custom (λ uri w, (Err Examples.ActorMismatchError, w))
         (λ i w, (Ok i, w)) check_signature.

(** The actor is known without a key, and fetching it brings none. *)
Definition without_key : Collaborators World :=
  custom (λ uri w, (Ok (keyless uri), w))
         (λ i w, (Ok i, mkWorld (actor_uri i :: identities w) (posts w)
                                (rejecting w)))
         check_signature.

(** The actor is known without a key, and fetching it brings the key. *)
Definition fetched_key : Collaborators World :=
  custom (λ uri w, (Ok (keyless uri), w))
         (λ i w,
            (Ok (mkIdentity (actor_uri i) (Some ("key of " +:+ actor_uri i))),
             mkWorld (actor_uri i :: identities w) (posts w) (rejecting w)))
         check_signature.

(** The check of signatures raises a format error without a message. *)
Definition terse : Collaborators World :=
  custom (Identity_by_actor_uri (Collaborators := env))
         (Identity_fetch_actor (Collaborators := env))
         (λ _ _, Some (Exc ["VerificationFormatError"; "VerificationError";
                            "BaseException"] [])).

Definition like : gmap string json := {[ "type" := JStr "Like" ]}.

Definition move : gmap string json :=
  {[ "type" := JStr "Move"; "object" := JInt 7 ]}.

Definition announce_like : gmap string json :=
  {[ "type" := JStr "Announce";
     "object" := JObj {[ "type" := JStr "Like" ]} ]}.

Definition announce_uri : gmap string json :=
  {[ "type" := JStr "Announce"; "object" := JStr "https://x/1" ]}.

Definition bare_note : gmap string json := {[ "type" := JStr "Note" ]}.

Definition mapped_note : gmap string json :=
  {[ "type" := JStr "Note"; "contentMap" := JObj {[ "en" := JStr "hi" ]} ]}.

Definition create (object : gmap string json) : gmap string json :=
  {[ "type" := JStr "Create"; "object" := JObj object ]}.

Definition accept_uri : gmap string json :=
  {[ "type" := JStr "Accept"; "object" := JStr "https://x/follows/1" ]}.

Definition update_person : gmap string json :=
  {[ "type" := JStr "Update";
     "object" := JObj {[ "type" := JStr "Person" ]} ]}.

Definition undo_reaction : gmap string json :=
  {[ "type" := JStr "Undo";
     "object" := JObj {[ "type" := JStr "http://litepub.social/ns#emojireact" ]} ]}.

Definition fetch_post : gmap string json :=
  {[ "type" := JStr "FetchPost"; "object" := JStr "https://x/1" ]}.

Definition internal : gmap string json :=
  {[ "type" := JStr "__internal__"; "object" := JObj fetch_post ]}.

Definition accept_nothing : gmap string json := {[ "type" := JStr "Accept" ]}.

Definition signed : gmap string json :=
  {[ "type" := JStr "Create";
     "signature" :=
       Examples.signature_block "RsaSignature2017"
         "signed:key of https://example.com/test-actor" ]}.

Definition no_creator : gmap string json :=
  {[ "type" := JStr "Create";
     "signature" := JObj {[ "type" := JStr "RsaSignature2017" ]} ]}.

Definition on (m : gmap string json) : machine := claimed m empty_world.

(** The machine after the one invocation of [h] on [arg], which returned. *)
Definition handled (h : handler) (arg : json) (st : machine (W:=World))
    : result (option State) * machine :=
  (Ok (Some processed), record_call h arg (world st) st).

End Scenarios.

(** A hypothesis on a concrete input holds by evaluation. *)
Ltac evaluate :=
  first [ vm_compute; reflexivity
        | apply (bool_decide_unpack _); vm_compute; exact I ].

Lemma plain_types_route_witness :
  handle_received (Scenarios.on Scenarios.like)
  = Scenarios.handled PostInteraction_handle_ap (JObj Scenarios.like)
      (Scenarios.on Scenarios.like).
Proof.
  refine (eq_trans (plain_types_route (Scenarios.on Scenarios.like) None
                      (Scenarios.on Scenarios.like) "like"
                      PostInteraction_handle_ap _ _ _) _); evaluate.
Defined.

Lemma ignored_types_witness :
  handle_received (Scenarios.on Scenarios.move)
  = (Ok (Some processed), Scenarios.on Scenarios.move).
Proof.
  refine (ignored_types (Scenarios.on Scenarios.move) None
            (Scenarios.on Scenarios.move) "move" _ _ _); evaluate.
Defined.

Lemma announce_route_witness :
  handle_received (Scenarios.on Scenarios.announce_like)
  = (Ok (Some processed), Scenarios.on Scenarios.announce_like)
  ∧ handle_received (Scenarios.on Scenarios.announce_uri)
    = Scenarios.handled PostInteraction_handle_ap
        (JObj Scenarios.announce_uri) (Scenarios.on Scenarios.announce_uri).
Proof.
  split.
  - refine (eq_trans (announce_route (Scenarios.on Scenarios.announce_like)
                        None (Scenarios.on Scenarios.announce_like)
                        (Some "like") _ _ _) _); evaluate.
  - refine (eq_trans (announce_route (Scenarios.on Scenarios.announce_uri)
                        None (Scenarios.on Scenarios.announce_uri)
                        None _ _ _) _); evaluate.
Defined.

Lemma create_note_route_witness :
  handle_received (Scenarios.on (Scenarios.create Scenarios.bare_note))
  = Scenarios.handled PostInteraction_handle_ap
      (JObj (Scenarios.create Scenarios.bare_note))
      (Scenarios.on (Scenarios.create Scenarios.bare_note))
  ∧ handle_received (Scenarios.on (Scenarios.create Scenarios.mapped_note))
    = Scenarios.handled Post_handle_create_ap
        (JObj (Scenarios.create Scenarios.mapped_note))
        (Scenarios.on (Scenarios.create Scenarios.mapped_note)).
Proof.
  split.
  - refine (eq_trans (create_note_route
                        (Scenarios.on (Scenarios.create Scenarios.bare_note))
                        None
                        (Scenarios.on (Scenarios.create Scenarios.bare_note))
                        Scenarios.bare_note _ _ _ _) _); evaluate.
  - refine (eq_trans (create_note_route
                        (Scenarios.on (Scenarios.create Scenarios.mapped_note))
                        None
                        (Scenarios.on (Scenarios.create Scenarios.mapped_note))
                        Scenarios.mapped_note _ _ _ _) _); evaluate.
Defined.

Lemma post_type_names_route_witness :
  handle_received
    (Scenarios.on (Scenarios.create {[ "type" := JStr "Article" ]}))
  = Scenarios.handled Post_handle_create_ap
      (JObj (Scenarios.create {[ "type" := JStr "Article" ]}))
      (Scenarios.on (Scenarios.create {[ "type" := JStr "Article" ]})).
Proof.
  refine (eq_trans
            (proj1 (post_type_names_route
                      (Scenarios.on
                         (Scenarios.create {[ "type" := JStr "Article" ]}))
                      None
                      (Scenarios.on
                         (Scenarios.create {[ "type" := JStr "Article" ]}))
                      "create" (Some "article") _ _ _ _ _) _) _); evaluate.
Defined.

Lemma object_type_routes_witness :
  handle_received (Scenarios.on Scenarios.accept_uri)
  = Scenarios.handled Follow_handle_accept_ap (JObj Scenarios.accept_uri)
      (Scenarios.on Scenarios.accept_uri)
  ∧ handle_received (Scenarios.on Scenarios.update_person)
    = Scenarios.handled Identity_handle_update_ap
        (JObj Scenarios.update_person) (Scenarios.on Scenarios.update_person).
Proof.
  split.
  - refine (eq_trans (object_type_routes (Scenarios.on Scenarios.accept_uri)
                        None (Scenarios.on Scenarios.accept_uri)
                        "accept" None Follow_handle_accept_ap _ _ _ _) _);
      evaluate.
  - refine (eq_trans (object_type_routes
                        (Scenarios.on Scenarios.update_person)
                        None (Scenarios.on Scenarios.update_person)
                        "update" (Some "person") Identity_handle_update_ap
                        _ _ _ _) _); evaluate.
Defined.

Lemma undo_of_emoji_reaction_witness :
  handle_received (Scenarios.on Scenarios.undo_reaction)
  = (Ok (Some processed), Scenarios.on Scenarios.undo_reaction).
Proof.
  refine (undo_of_emoji_reaction (Scenarios.on Scenarios.undo_reaction) None
            (Scenarios.on Scenarios.undo_reaction) _ _ _); evaluate.
Defined.

Lemma internal_routes_on_object_witness :
  handle_received (Scenarios.on Scenarios.internal)
  = Scenarios.handled Post_handle_fetch_internal (JObj Scenarios.fetch_post)
      (Scenarios.on Scenarios.internal).
Proof.
  destruct (internal_routes_on_object (Scenarios.on Scenarios.internal) None
              (Scenarios.on Scenarios.internal) "fetchpost"
              Post_handle_fetch_internal
              ltac:(evaluate) ltac:(evaluate) ltac:(evaluate) ltac:(evaluate))
    as (d & Hd & ->).
  assert (d = Scenarios.fetch_post) as ->.
  { vm_compute in Hd. by injection Hd as <-. }
  evaluate.
Defined.

Lemma unreadable_object_witness :
  handle_received (Scenarios.on Scenarios.accept_nothing)
  = (Err (KeyError "object"), Scenarios.on Scenarios.accept_nothing).
Proof.
  refine (proj1 (unreadable_object (Scenarios.on Scenarios.accept_nothing)
                   None (Scenarios.on Scenarios.accept_nothing) "accept"
                   (KeyError "object") _ _ _ _)); evaluate.
Defined.

Lemma unsigned_message_witness :
  verify_ld_signature (Scenarios.on Scenarios.like)
  = (Ok None, Scenarios.on Scenarios.like).
Proof.
  refine (proj1 (unsigned_message (Scenarios.on Scenarios.like) _)).
  evaluate.
Defined.

Lemma prepass_errors_propagate_witness :
  handle_received (Collaborators0 := Scenarios.unresolvable)
    (Scenarios.on Scenarios.signed)
  = (Err Examples.ActorMismatchError, Scenarios.on Scenarios.signed)
  ∧ isinstance Examples.ActorMismatchError "ActivityPubError" = true.
Proof.
  split; [|evaluate].
  refine (proj1 (prepass_errors_propagate
                   (Collaborators0 := Scenarios.unresolvable)
                   (Scenarios.on Scenarios.signed)
                   Examples.ActorMismatchError
                   (Scenarios.on Scenarios.signed) _ _ _)); evaluate.
Defined.

Lemma format_error_without_args_witness :
  (handle_received (Collaborators0 := Scenarios.terse)
     (Scenarios.on Scenarios.signed)).1
  = Err (IndexError "tuple index out of range").
Proof.
  refine (f_equal fst
            (format_error_without_args (Collaborators0 := Scenarios.terse)
               (Scenarios.on Scenarios.signed)
               (Exc ["VerificationFormatError"; "VerificationError";
                     "BaseException"] [])
               (verify_ld_signature (Collaborators0 := Scenarios.terse)
                  (Scenarios.on Scenarios.signed)).2 _ _ _)); evaluate.
Defined.

Lemma signature_without_creator_witness :
  handle_received (Scenarios.on Scenarios.no_creator)
  = (Err (KeyError "creator"), Scenarios.on Scenarios.no_creator).
Proof.
  refine (proj1 (signature_without_creator (Scenarios.on Scenarios.no_creator)
                   (JObj {[ "type" := JStr "RsaSignature2017" ]})
                   (KeyError "creator") _ _)); evaluate.
Defined.

Lemma creator_without_key_witness :
  (verify_ld_signature (Collaborators0 := Scenarios.without_key)
     (Scenarios.on Scenarios.signed)).1
  = Err (VerificationError
           [JStr "Inbox: Could not fetch actor to verify message signature: %s";
            JStr "https://example.com/test-actor"]).
Proof.
  refine (f_equal fst
            (creator_without_key (Collaborators0 := Scenarios.without_key)
               (Scenarios.on Scenarios.signed)
               (Examples.signature_block "RsaSignature2017"
                  "signed:key of https://example.com/test-actor")
               (JStr Examples.creator_uri) "https://example.com/test-actor"
               (Scenarios.keyless "https://example.com/test-actor")
               Fixture.empty_world
               (Scenarios.keyless "https://example.com/test-actor")
               (Fixture.mkWorld ["https://example.com/test-actor"] [] [])
               _ _ _ _ _ _ _)); evaluate.
Defined.


Lemma internal_message_is_dispatched_witness :
  let row := mkInboxMessage 1 Scenarios.internal received 0 None None in
  let st := mkMachine row Fixture.empty_world [] [] in
  (create_internal 0 (JObj Scenarios.fetch_post) []).2 = [row]
  ∧ handle_received st
    = Scenarios.handled Post_handle_fetch_internal
        (JObj Scenarios.fetch_post) st.
Proof.
  intros row st. split; [evaluate|].
  refine (eq_trans
            (proj1 (internal_message_is_dispatched 0
                      (JObj Scenarios.fetch_post) [] row
                      Fixture.empty_world [] [] _ _)
               Scenarios.fetch_post "FetchPost" Post_handle_fetch_internal
               _ _ _) _); evaluate.
Defined.

(** C6 at four documents: one that verifies, which keeps its signature;
    one that does not, which loses it; one that does not verify against a
    key that had to be fetched, which loses it too; and one whose creator
    has no key at all. *)
Lemma verify_ld_signature_keeps_or_pops_witness :
  let mismatch := VerificationError [JStr "Signature mismatch"] in
  let who :=
    mkIdentity "https://example.com/test-actor"
               (Some "key of https://example.com/test-actor") in
  let signed := Scenarios.on Scenarios.signed in
  let forged := Scenarios.on Examples.mismatched in
  ((verify_ld_signature signed).1 = Ok (Some who)
   ∧ is_Some (message (instance (verify_ld_signature signed).2)
              !! "signature"))
  ∧ ((verify_ld_signature forged).1 = Err mismatch
     ∧ message (instance (verify_ld_signature forged).2) !! "signature"
       = None)
  ∧ ((verify_ld_signature (Collaborators0 := Scenarios.fetched_key)
        forged).1 = Err mismatch
     ∧ message (instance
                  (verify_ld_signature
                     (Collaborators0 := Scenarios.fetched_key) forged).2)
       !! "signature" = None)
  ∧ message (instance
               (verify_ld_signature
                  (Collaborators0 := Scenarios.without_key) forged).2)
    !! "signature" = None.
Proof.
  intros mismatch who signed forged.
  pose (good := Examples.signature_block "RsaSignature2017"
                  "signed:key of https://example.com/test-actor").
  pose (bad := Examples.signature_block "RsaSignature2017" "forged").
  pose (fetched := Fixture.mkWorld ["https://example.com/test-actor"] [] []).
  split; [|split; [|split]].
  - pose proof (proj2 (verify_ld_signature_keeps_or_pops signed) good
                  (JStr Examples.creator_uri)
                  "https://example.com/test-actor" who Fixture.empty_world
                  ltac:(evaluate) ltac:(evaluate) ltac:(evaluate)
                  ltac:(evaluate)) as [Hkept Hwho].
    split; [apply Hwho; by eexists|]. rewrite Hkept. by eexists.
  - rewrite (proj2 (verify_ld_signature_keeps_or_pops forged) bad
               (JStr Examples.creator_uri)
               "https://example.com/test-actor" who Fixture.empty_world
               ltac:(evaluate) ltac:(evaluate) ltac:(evaluate)
               ltac:(evaluate) ltac:(evaluate)).
    split; evaluate.
  - rewrite (proj2 (verify_ld_signature_keeps_or_pops
                      (Collaborators0 := Scenarios.fetched_key) forged) bad
               (JStr Examples.creator_uri)
               "https://example.com/test-actor" who fetched
               ltac:(evaluate) ltac:(evaluate) ltac:(evaluate)
               ltac:(evaluate) ltac:(evaluate)).
    split; evaluate.
  - rewrite (proj2 (verify_ld_signature_keeps_or_pops
                      (Collaborators0 := Scenarios.without_key) forged) bad
               (JStr Examples.creator_uri)
               "https://example.com/test-actor"
               (Scenarios.keyless "https://example.com/test-actor") fetched
               ltac:(evaluate) ltac:(evaluate) ltac:(evaluate)
               ltac:(evaluate)).
    evaluate.
Defined.

(** The engine at work on a [Follow] that is claimed at time 10: when the
    handler returns, the stored row is [processed] since time 10 and
    unlocked; when the handler raises a [ValueError] the row is still in
    [received], a second worker that comes before [try_interval] has
    passed leaves it alone, and one that comes after tries again. *)
Lemma worker_attempts_example :
  let row := mkInboxMessage 1 Examples.follow received 0 None None in
  let refusing :=
    Fixture.mkWorld [] [] [(Follow_handle_request_ap, Examples.ValueError)] in
  (worker_attempts [10%Z] 60 row Fixture.empty_world).1
  = mkInboxMessage 1 Examples.follow processed 10 (Some 10%Z) None
  ∧ (worker_attempts [10%Z; 200%Z] 60 row refusing).1
    = mkInboxMessage 1 Examples.follow received 0 (Some 10%Z) None
  ∧ (worker_attempts [10%Z; 200%Z; 310%Z] 60 row refusing).1
    = mkInboxMessage 1 Examples.follow received 0 (Some 310%Z) None.
Proof. by vm_compute. Qed.
